(** * MariHacks: the image acquisition pipeline of [frontend/app/analyse/page.tsx]

    A shallow embedding of the client page that captures a photo (camera
    frame as a data URI, or a file), turns it into a [FormData] body and
    posts it to [/api/upload], together with the component state that
    surrounds it (device detection, preview, camera stream lifecycle).

    Conventions.
    - A JavaScript string is the list of its UTF-16 code units ([list N]).
    - The bytes of a [Blob] are a [list N]; a store into a [Uint8Array]
      wraps modulo 256.
    - Platform functions the page calls ([atob], [String.prototype.split],
      the regular expression matcher, [FormData.append], the [Blob]
      constructor, [URL.createObjectURL], React's effect scheduling) are
      modelled after their standards, next to the code that calls them.
    - Promise-returning code is a computation that emits a trace of
      observable events and either returns or throws. *)

From Stdlib Require Import NArith ZArith Lia Ascii String.
From stdpp Require Import base option list gmap.

Local Open Scope N_scope.

(** ** JavaScript strings *)

Abbreviation jsstring := (list N).

(** A string literal, as the list of its code units. *)
Definition lit (s : string) : jsstring :=
  (λ a, N_of_ascii a) <$> list_ascii_of_string s.

Module Chr.
Definition tab : N := 9.
Definition lf : N := 10.
Definition ff : N := 12.
Definition cr : N := 13.
Definition space : N := 32.
Definition quote : N := 34.
Definition plus : N := 43.
Definition comma : N := 44.
Definition slash : N := 47.
Definition colon : N := 58.
Definition semicolon : N := 59.
Definition equals : N := 61.
Definition ls : N := 8232.   (* U+2028 LINE SEPARATOR *)
Definition ps : N := 8233.   (* U+2029 PARAGRAPH SEPARATOR *)
End Chr.

(** [String.prototype.startsWith]. *)
Fixpoint startsWith (s prefix : jsstring) {struct prefix} : bool :=
  match prefix, s with
  | [], _ => true
  | p :: prefix', c :: s' => (c =? p) && startsWith s' prefix'
  | _ :: _, [] => false
  end.

(** [String.prototype.endsWith]. *)
Definition endsWith (s suffix : jsstring) : bool :=
  startsWith (reverse s) (reverse suffix).

(** [s.split(sep)] for a one-character separator: the pieces between the
    separators, never an empty array. *)
Fixpoint split (sep : N) (s : jsstring) : list jsstring :=
  match s with
  | [] => [[]]
  | c :: s' =>
      if c =? sep then [] :: split sep s'
      else match split sep s' with
           | [] => [[c]]
           | p :: ps => (c :: p) :: ps
           end
  end.

(** ** Errors a JavaScript computation can throw *)

Inductive JsError : Type :=
  | InvalidCharacterError               (* DOMException thrown by [atob] *)
  | TypeError (message : jsstring)      (* e.g. reading [1] of [null]; a failed fetch *)
  | SyntaxError (message : jsstring).   (* [response.json()] on a body that is not JSON *)

Abbreviation Result A := (JsError + A)%type.

(** ** Base64: the platform's [atob] (forgiving-base64 decode) *)

Module Base64.

(** The value of an alphabet character: [A-Z] 0..25, [a-z] 26..51,
    [0-9] 52..61, [+] 62, [/] 63. *)
Definition value (c : N) : option N :=
  if (65 <=? c) && (c <=? 90) then Some (c - 65)
  else if (97 <=? c) && (c <=? 122) then Some (c - 71)
  else if (48 <=? c) && (c <=? 57) then Some (c + 4)
  else if c =? Chr.plus then Some 62
  else if c =? Chr.slash then Some 63
  else None.

(** The alphabet character of a sextet. *)
Definition char (v : N) : N :=
  if v <? 26 then v + 65
  else if v <? 52 then v + 71
  else if v <? 62 then v - 4
  else if v =? 62 then Chr.plus
  else Chr.slash.

Definition is_ascii_whitespace (c : N) : bool :=
  (c =? Chr.tab) || (c =? Chr.lf) || (c =? Chr.ff) || (c =? Chr.cr)
  || (c =? Chr.space).

Definition remove_whitespace (data : jsstring) : jsstring :=
  filter (λ c, is_ascii_whitespace c = false) data.

(** "If data ends with one or two U+003D (=) code points, remove them." *)
Fixpoint strip_padding (data : jsstring) : jsstring :=
  match data with
  | [] => []
  | c :: rest =>
      if (c =? Chr.equals)
         && match rest with
            | [] => true
            | [d] => d =? Chr.equals
            | _ => false
            end
      then []
      else c :: strip_padding rest
  end.

Fixpoint values (data : jsstring) : option (list N) :=
  match data with
  | [] => Some []
  | c :: rest =>
      match value c, values rest with
      | Some v, Some vs => Some (v :: vs)
      | _, _ => None
      end
  end.

(** The bit buffer of the decoder: every four sextets give three bytes;
    two left-over sextets (12 bits) give one byte, the last four bits
    discarded; three left-over sextets (18 bits) give two bytes, the
    last two bits discarded. *)
Fixpoint decode_sextets (vs : list N) : list N :=
  match vs with
  | a :: b :: c :: d :: rest =>
      let n := a * 262144 + b * 4096 + c * 64 + d in
      n / 65536 :: (n / 256) mod 256 :: n mod 256 :: decode_sextets rest
  | [a; b; c] =>
      let n := (a * 4096 + b * 64 + c) / 4 in
      [n / 256; n mod 256]
  | [a; b] =>
      let n := (a * 64 + b) / 16 in
      [n]
  | _ => []
  end.

(** [atob(data)]: a binary string (one code unit below 256 per byte), or
    an [InvalidCharacterError]. *)
Definition atob (data : jsstring) : Result jsstring :=
  let data := remove_whitespace data in
  let data :=
    if (N.of_nat (length data) mod 4 =? 0) then strip_padding data
    else data in
  if N.of_nat (length data) mod 4 =? 1 then inl InvalidCharacterError
  else match values data with
       | None => inl InvalidCharacterError
       | Some vs => inr (decode_sextets vs)
       end.

(** Base64 encoding of a byte sequence (RFC 4648, with padding; the
    platform's [btoa]). The page never encodes; this is the
    re-encoding the round-trip property speaks of. *)
Fixpoint btoa (bytes : list N) : jsstring :=
  match bytes with
  | [] => []
  | [x] =>
      let n := x * 16 in
      [char (n / 64); char (n mod 64); Chr.equals; Chr.equals]
  | [x; y] =>
      let n := (x * 256 + y) * 4 in
      [char (n / 4096); char ((n / 64) mod 64); char (n mod 64); Chr.equals]
  | x :: y :: z :: rest =>
      let n := x * 65536 + y * 256 + z in
      char (n / 262144) :: char ((n / 4096) mod 64)
        :: char ((n / 64) mod 64) :: char (n mod 64) :: btoa rest
  end.

Definition is_alphabet (c : N) : bool :=
  match value c with Some _ => true | None => false end.

Definition low_bits_zero (c bits : N) : bool :=
  match value c with Some v => v mod bits =? 0 | None => false end.

(** Canonical base64 text, what an encoder emits: whole quadruples of
    alphabet characters, the last one possibly ending in one or two
    [=] with the unused low bits of its last sextet zero. *)
Fixpoint canonical (s : jsstring) : bool :=
  match s with
  | [] => true
  | [a; b; c; d] =>
      if d =? Chr.equals then
        if c =? Chr.equals then is_alphabet a && low_bits_zero b 16
        else is_alphabet a && is_alphabet b && low_bits_zero c 4
      else is_alphabet a && is_alphabet b && is_alphabet c && is_alphabet d
  | a :: b :: c :: d :: rest =>
      is_alphabet a && is_alphabet b && is_alphabet c && is_alphabet d
      && canonical rest
  | _ => false
  end.

End Base64.

(** ** The regular expression [/:(.*?);/]

    [.] matches any code unit but a line terminator; [*?] is lazy, so
    from a given [:] the capture runs to the first [;] and the attempt
    fails if a line terminator or the end of the text comes first. The
    matcher tries every start position from the left. *)

Definition is_line_terminator (c : N) : bool :=
  (c =? Chr.lf) || (c =? Chr.cr) || (c =? Chr.ls) || (c =? Chr.ps).

(** After a [:] : the capture up to the first [;]. *)
Fixpoint lazy_until_semicolon (s : jsstring) : option jsstring :=
  match s with
  | [] => None
  | c :: s' =>
      if c =? Chr.semicolon then Some []
      else if is_line_terminator c then None
      else cons c <$> lazy_until_semicolon s'
  end.

(** [s.match(/:(.*?);/)]: [Some g] is a match whose group 1 is [g],
    [None] is [null]. *)
Fixpoint match_colon_semicolon (s : jsstring) : option jsstring :=
  match s with
  | [] => None
  | c :: s' =>
      if c =? Chr.colon then
        match lazy_until_semicolon s' with
        | Some g => Some g
        | None => match_colon_semicolon s'
        end
      else match_colon_semicolon s'
  end.

(** ** Blobs and files *)

(** A [Blob]; a [File] is a blob that has a name. *)
Record Blob : Type := mkBlob {
  blob_bytes : list N;
  blob_type : jsstring;
  blob_name : option jsstring
}.

Definition ascii_lowercase (c : N) : N :=
  if (65 <=? c) && (c <=? 90) then c + 32 else c.

(** The [type] a [Blob] gets from the [type] option of its constructor:
    the option in ASCII lower case, or the empty string if it has a code
    unit outside U+0020..U+007E. *)
Definition normalize_type (t : jsstring) : jsstring :=
  if forallb (λ c, (32 <=? c) && (c <=? 126)) t
  then ascii_lowercase <$> t
  else [].

(** [new Blob([ab], { type })]. *)
Definition new_Blob (ab : list N) (type : jsstring) : Blob :=
  {| blob_bytes := ab; blob_type := normalize_type type; blob_name := None |}.

(** ** Result: a value or a thrown error *)

#[global] Instance result_ret : MRet (sum JsError) := λ A x, inr x.
#[global] Instance result_bind : MBind (sum JsError) :=
  λ A B f m, match m with inl e => inl e | inr x => f x end.

(** [x!] followed by a property access: a [TypeError] when [x] is [null]. *)
Definition non_null {A} (x : option A) : Result A :=
  match x with
  | Some a => inr a
  | None => inl (TypeError (lit "Cannot read properties of null"))
  end.

(** ** Utility: convert a base64 data URI to a Blob (page.tsx, 12-23) *)

(** Lines 17-21: [ia[i] = byteString.charCodeAt(i)] for every index, [ia]
    a [Uint8Array]. *)
Definition to_bytes (byteString : jsstring) : list N :=
  (λ c, c mod 256) <$> byteString.

Definition base64ToBlob (base64 : jsstring) : Result Blob :=
  let parts := split Chr.comma base64 in
  (* atob(parts[1]); a missing parts[1] is [undefined], which atob reads
     as the text "undefined" *)
  byteString ← Base64.atob (default (lit "undefined") (parts !! 1%nat));
  mimeString ← non_null (match_colon_semicolon (default [] (parts !! 0%nat)));
  let ia := to_bytes byteString in
  mret (new_Blob ia mimeString).

(** *** Well-formed data URIs, in the words of the specification

    "Split at the first comma; the prefix before the comma contains the
    MIME type (pattern [data:<mime>;base64,]); decode the base64
    remainder into raw bytes. Fails if the prefix pattern or decoding
    is invalid." The decoder is the one the page has, [atob]. *)

Fixpoint before_first_comma (s : jsstring) : jsstring :=
  match s with
  | [] => []
  | c :: s' => if c =? Chr.comma then [] else c :: before_first_comma s'
  end.

Fixpoint after_first_comma (s : jsstring) : option jsstring :=
  match s with
  | [] => None
  | c :: s' => if c =? Chr.comma then Some s' else after_first_comma s'
  end.

(** [prefix,] reads [data:<mime>;base64,] for some [<mime>]. *)
Definition matches_data_uri_pattern (prefix : jsstring) : bool :=
  startsWith prefix (lit "data:") && endsWith prefix (lit ";base64")
  && (12 <=? N.of_nat (length prefix)).

Definition well_formed_data_uri (s : jsstring) : bool :=
  matches_data_uri_pattern (before_first_comma s)
  && match after_first_comma s with
     | Some remainder =>
         match Base64.atob remainder with inr _ => true | inl _ => false end
     | None => false
     end.

(** A code unit a MIME type can have inside a data URI prefix: not the
    separators [,] and [;], not a line terminator. *)
Definition mime_char (c : N) : bool :=
  negb (c =? Chr.comma) && negb (c =? Chr.semicolon)
  && negb (is_line_terminator c).

(** The shape [data:<mime>;base64,<payload>]. *)
Definition data_uri (mime payload : jsstring) : jsstring :=
  lit "data:" ++ mime ++ lit ";base64," ++ payload.

(** ** FormData *)

Record File : Type := mkFile {
  file_bytes : list N;
  file_type : jsstring;
  file_name : jsstring
}.

Inductive FormDataEntryValue : Type :=
  | FDString (s : jsstring)
  | FDFile (f : File).

Abbreviation FormData := (list (jsstring * FormDataEntryValue)).

(** [formData.append(name, value)] with a string value. *)
Definition append_string (fd : FormData) (name value : jsstring) : FormData :=
  fd ++ [(name, FDString value)].

(** [formData.append(name, blob, filename?)]: the entry is a [File] with
    the blob's bytes and type; its name is [filename] if given, else the
    name of the blob if it is a [File], else ["blob"]. *)
Definition append_blob (fd : FormData) (name : jsstring) (value : Blob)
    (filename : option jsstring) : FormData :=
  let n := match filename with
           | Some f => f
           | None => default (lit "blob") (blob_name value)
           end in
  fd ++ [(name, FDFile {| file_bytes := blob_bytes value;
                          file_type := blob_type value;
                          file_name := n |})].

(** ** The network *)

Record Request : Type := mkRequest {
  req_url : jsstring;
  req_method : jsstring;
  req_body : FormData
}.

(** A response: its status and what reading its body gives (the text,
    or the error that interrupted the read). *)
Record Response : Type := mkResponse {
  status : N;
  body : Result jsstring
}.

(** [response.ok]. *)
Definition ok (r : Response) : bool := (200 <=? status r) && (status r <=? 299).

(** [response.text()]. *)
Definition text (r : Response) : Result jsstring := body r.

(** The image handed to the handlers: [Blob | string]. *)
Inductive Image : Type :=
  | ImageString (s : jsstring)
  | ImageBlob (b : Blob).

(** The environment of one upload: [window.location.origin] ([None] when
    [window] is undefined) and the reply of the network to a request
    (a response, or the error [fetch] rejects with). *)
Record Env : Type := mkEnv {
  window_origin : option jsstring;
  network : Request → Result Response
}.

(** ** The upload (page.tsx, 178-208)

    JSON values and [JSON.parse] belong to the platform; the page only
    passes the parsed value on, so both are left abstract. *)

Section Upload.

Context {JSValue : Type}.
Variable JSON_parse : jsstring → option JSValue.

(** [response.json()]: read the body, then parse it. *)
Definition json (r : Response) : Result JSValue :=
  t ← body r;
  match JSON_parse t with
  | Some v => inr v
  | None => inl (SyntaxError (lit "Unexpected token"))
  end.

Inductive ConsoleArg : Type :=
  | CStr (s : jsstring)
  | CNum (n : N)
  | CErr (e : JsError)
  | CJson (v : JSValue).

(** What an upload does that can be observed from outside. *)
Inductive Event : Type :=
  | Fetch (r : Request)
  | ConsoleLog (args : list ConsoleArg)
  | ConsoleError (args : list ConsoleArg)
  | UnhandledRejection (e : JsError).

(** A computation: the events it emitted, and its value or the error it
    threw (for an async function: the rejection of its promise). *)
Definition M (A : Type) : Type := (list Event * Result A)%type.

#[local] Instance M_ret : MRet M := λ A x, ([], inr x).
#[local] Instance M_bind : MBind M :=
  λ A B f m,
    match m with
    | (tr, inl e) => (tr, inl e)
    | (tr, inr x) => let '(tr', r) := f x in (tr ++ tr', r)
    end.

Definition lift {A} (r : Result A) : M A := ([], r).

(** [try { m } catch (error) { h error }]. *)
Definition try_catch {A} (m : M A) (h : JsError → M A) : M A :=
  match m with
  | (tr, inl e) => let '(tr', r) := h e in (tr ++ tr', r)
  | (tr, inr x) => (tr, inr x)
  end.

Definition fetch (env : Env) (r : Request) : M Response :=
  ([Fetch r], network env r).

Definition console_log (args : list ConsoleArg) : M unit :=
  ([ConsoleLog args], inr tt).

Definition console_error (args : list ConsoleArg) : M unit :=
  ([ConsoleError args], inr tt).

(** Lines 179-190: the form data of an image. *)
Definition buildFormData (image : Image) : Result FormData :=
  let formData : FormData := [] in
  match image with
  | ImageString s =>
      if startsWith s (lit "data:") then
        blob ← base64ToBlob s;
        mret (append_blob formData (lit "image") blob (Some (lit "captured.jpg")))
      else
        (* Non-data URL strings are not expected now *)
        mret (append_string formData (lit "imageUrl") s)
  | ImageBlob b =>
      mret (append_blob formData (lit "image") b None)
  end.

(** Line 191-192. *)
Definition apiEndpoint (env : Env) : jsstring :=
  match window_origin env with
  | Some origin => origin ++ lit "/api/upload"
  | None => lit "/api/upload"
  end.

(** Lines 194-197: [fetch(apiEndpoint, { method: "POST", body: formData })]. *)
Definition upload_request (env : Env) (formData : FormData) : Request :=
  {| req_url := apiEndpoint env; req_method := lit "POST"; req_body := formData |}.

(** Lines 193-207: the request and the report of its result. *)
Definition postFormData (env : Env) (formData : FormData) : M unit :=
  try_catch
    (response ← fetch env (upload_request env formData);
     if negb (ok response) then
       errorText ← lift (text response);
       console_error [CStr (lit "Upload error"); CNum (status response);
                      CStr errorText]
     else
       data ← lift (json response);
       console_log [CStr (lit "Server response:"); CJson data])
    (λ error, console_error [CStr (lit "Error uploading image:"); CErr error]).

Definition handleImageUpload (env : Env) (image : Image) : M unit :=
  formData ← lift (buildFormData image);
  postFormData env formData.

(** The requests a trace contains. *)
Definition requests (tr : list Event) : list Request :=
  omap (λ ev, match ev with Fetch r => Some r | _ => None end) tr.

(** *** The outcome the page reports

    The page has no return value for an upload; what it reports is what
    it writes to the console. The specification's [UploadOutcome] is
    read off that report. *)

Inductive FailureReason : Type :=
  | ResponseText (status : N) (text : jsstring)
  | Cause (e : JsError).

Inductive UploadOutcome : Type :=
  | Success (body : JSValue)
  | Failure (reason : FailureReason).

Definition outcome_of_event (ev : Event) : option UploadOutcome :=
  match ev with
  | ConsoleLog [CStr l; CJson data] =>
      if bool_decide (l = lit "Server response:") then Some (Success data)
      else None
  | ConsoleError [CStr l; CNum st; CStr t] =>
      if bool_decide (l = lit "Upload error") then Some (Failure (ResponseText st t))
      else None
  | ConsoleError [CStr l; CErr e] =>
      if bool_decide (l = lit "Error uploading image:") then Some (Failure (Cause e))
      else None
  | _ => None
  end.

Definition outcomes (tr : list Event) : list UploadOutcome :=
  omap outcome_of_event tr.

(** ** The page: state of [Analyse] (page.tsx, 169-287) *)

(** [URL.createObjectURL] gives every blob a URL of its own; the blob
    URL store keeps the blob until the URL is revoked. URLs are numbered
    here in the order they are made. *)
Fixpoint uint_digits (u : Decimal.uint) : jsstring :=
  match u with
  | Decimal.Nil => []
  | Decimal.D0 u => 48 :: uint_digits u
  | Decimal.D1 u => 49 :: uint_digits u
  | Decimal.D2 u => 50 :: uint_digits u
  | Decimal.D3 u => 51 :: uint_digits u
  | Decimal.D4 u => 52 :: uint_digits u
  | Decimal.D5 u => 53 :: uint_digits u
  | Decimal.D6 u => 54 :: uint_digits u
  | Decimal.D7 u => 55 :: uint_digits u
  | Decimal.D8 u => 56 :: uint_digits u
  | Decimal.D9 u => 57 :: uint_digits u
  end.

Definition object_url (id : N) : jsstring :=
  lit "blob:" ++ uint_digits (N.to_uint id).

Record PageState : Type := mkPage {
  isMobileDevice : option bool;         (* useState<boolean | null>(null) *)
  screenshot : option jsstring;         (* useState<string | null>(null) *)
  blob_urls : gmap N Blob;              (* the blob URL store *)
  next_url : N;
  trace : list Event
}.

Definition initial : PageState :=
  {| isMobileDevice := None; screenshot := None;
     blob_urls := ∅; next_url := 0; trace := [] |}.

Definition setIsMobileDevice (v : bool) (st : PageState) : PageState :=
  {| isMobileDevice := Some v; screenshot := screenshot st;
     blob_urls := blob_urls st; next_url := next_url st; trace := trace st |}.

Definition setScreenshot (v : jsstring) (st : PageState) : PageState :=
  {| isMobileDevice := isMobileDevice st; screenshot := Some v;
     blob_urls := blob_urls st; next_url := next_url st; trace := trace st |}.

(** [URL.createObjectURL(blob)]. *)
Definition createObjectURL (b : Blob) (st : PageState) : jsstring * PageState :=
  (object_url (next_url st),
   {| isMobileDevice := isMobileDevice st; screenshot := screenshot st;
      blob_urls := <[next_url st := b]> (blob_urls st);
      next_url := next_url st + 1; trace := trace st |}).

(** A call [handleImageUpload(image)] whose promise nobody awaits: its
    events are appended to the trace, a rejection is left unhandled. The
    upload does not read or write the state of the page, so the moment
    its continuation runs does not matter to that state. *)
Definition spawn_upload (env : Env) (image : Image) (st : PageState) : PageState :=
  let '(tr, r) := handleImageUpload env image in
  {| isMobileDevice := isMobileDevice st; screenshot := screenshot st;
     blob_urls := blob_urls st; next_url := next_url st;
     trace := trace st ++ tr
              ++ match r with inl e => [UnhandledRejection e] | inr _ => [] end |}.

(** *** Device detection (lines 173-176) *)

Definition ascii_uppercase (c : N) : N :=
  if (97 <=? c) && (c <=? 122) then c - 32 else c.

(** With the [i] flag an ASCII letter of the pattern matches its two
    cases and nothing else. *)
Fixpoint matches_here_ignore_case (pat s : jsstring) : bool :=
  match pat, s with
  | [], _ => true
  | p :: pat', c :: s' =>
      (ascii_uppercase c =? ascii_uppercase p) && matches_here_ignore_case pat' s'
  | _ :: _, [] => false
  end.

(** [/p1|p2|.../i.test(s)]. *)
Fixpoint test_ignore_case (alternatives : list jsstring) (s : jsstring) : bool :=
  existsb (λ pat, matches_here_ignore_case pat s) alternatives
  || match s with
     | [] => false
     | _ :: s' => test_ignore_case alternatives s'
     end.

Definition mobile_patterns : list jsstring :=
  [lit "iPhone"; lit "iPad"; lit "iPod"; lit "Android"].

(** The effect with no dependencies, run once after the first render;
    [navigator.userAgent || ""]. *)
Definition detect_device (userAgent : option jsstring) (st : PageState) : PageState :=
  let userAgent := default [] userAgent in
  setIsMobileDevice (test_ignore_case mobile_patterns userAgent) st.

(** *** The capture handlers (lines 211-229) *)

Definition handleCapture (env : Env) (data : Image) (st : PageState) : PageState :=
  match data with
  | ImageString s =>
      let st := setScreenshot s st in
      spawn_upload env data st
  | ImageBlob b =>
      let '(previewUrl, st) := createObjectURL b st in
      let st := setScreenshot previewUrl st in
      spawn_upload env data st
  end.

(** [file] is [e.target.files?.[0]]. *)
Definition handleMobileFile (env : Env) (file : option Blob) (st : PageState) : PageState :=
  match file with
  | Some file =>
      let '(previewUrl, st) := createObjectURL file st in
      let st := setScreenshot previewUrl st in
      spawn_upload env (ImageBlob file) st
  | None => st
  end.

(** What the user can do once a capture widget is mounted. *)
Inductive PageEvent : Type :=
  | Capture (env : Env) (data : Image)               (* onCapture(data) *)
  | MobileFileChange (env : Env) (file : option Blob).

Definition handle (st : PageState) (ev : PageEvent) : PageState :=
  match ev with
  | Capture env data => handleCapture env data st
  | MobileFileChange env file => handleMobileFile env file st
  end.

Definition run (st : PageState) (evs : list PageEvent) : PageState :=
  foldl handle st evs.

(** *** What is rendered (lines 231-286) *)

Inductive CaptureWidget : Type :=
  | MobileCameraAndFileInput
  | DesktopCameraWidget.

Inductive View : Type :=
  | LoadingCamera
  | Main (widget : CaptureWidget) (captured : option jsstring).

(** [screenshot && <img src={screenshot}/>]: an image unless the state
    is [null] or the empty string. *)
Definition render (st : PageState) : View :=
  match isMobileDevice st with
  | None => LoadingCamera
  | Some mobile =>
      Main (if mobile then MobileCameraAndFileInput else DesktopCameraWidget)
           (match screenshot st with
            | Some [] | None => None
            | Some src => Some src
            end)
  end.

(** A preview reference can be resolved if it is a data URI or a URL of
    the blob URL store. *)
Definition resolvable (st : PageState) (ref : jsstring) : Prop :=
  startsWith ref (lit "data:") = true
  ∨ ∃ id, ref = object_url id ∧ is_Some (blob_urls st !! id).

End Upload.

(** ** Sample values for the examples *)

(** A fragment of JSON (objects of one member) and a parser that knows
    one text, [{"ok":true}]. *)
Inductive Json : Type :=
  | JTrue
  | JObject (key : jsstring) (value : Json).

Definition ok_true_text : jsstring :=
  [123; Chr.quote] ++ lit "ok" ++ [Chr.quote] ++ lit ":true}".

Definition parse_sample (t : jsstring) : option Json :=
  if bool_decide (t = ok_true_text) then Some (JObject (lit "ok") JTrue)
  else None.

(** An environment whose network gives the same reply to every request. *)
Definition sample_env (reply : Result Response) : Env :=
  {| window_origin := Some (lit "https://fridge.example");
     network := λ _, reply |}.

(** The first ten bytes of a JPEG file, and their base64 text. *)
Definition jpeg_header : list N := [255; 216; 255; 224; 0; 16; 74; 70; 73; 70].
Definition jpeg_header_base64 : jsstring := lit "/9j/4AAQSkZJRg==".

(** ** MobileCamera (page.tsx, 28-105): the stream lifecycle

    The component keeps its stream in an effect that depends on
    [facingMode]. Every run of the effect has a variable [activeStream]
    of its own, calls [getUserMedia] and registers a cleanup that stops
    the tracks of [activeStream]. React runs the cleanup of the previous
    run before the next run and on unmount. [getUserMedia] settles
    later, as an event of its own. Streams and effect runs are numbered
    in the order they are made. *)

Module MobileCamera.

Local Open Scope nat_scope.

Inductive FacingMode : Type := environment | user.

(** Line 81: the updater passed to [setFacingMode]. *)
Definition toggleCamera (prev : FacingMode) : FacingMode :=
  match prev with
  | environment => user
  | _ => environment
  end.

(** [readyState] of a track. *)
Inductive ReadyState : Type := live | ended.

Record State : Type := mkState {
  facingMode : FacingMode;                (* useState("environment") *)
  stream : option nat;                    (* useState<MediaStream | null>(null) *)
  mounted : bool;                         (* videoRef.current is set *)
  srcObject : option nat;                 (* videoRef.current.srcObject *)
  activeStream : list (option nat);       (* one variable per run of the effect *)
  pending : list (nat * FacingMode);      (* getUserMedia calls not settled: run, constraint *)
  streams : list (FacingMode * list ReadyState);  (* every stream the device gave *)
  errors : nat                            (* console.error calls *)
}.

Definition unmounted : State :=
  {| facingMode := environment; stream := None; mounted := false;
     srcObject := None; activeStream := []; pending := [];
     streams := []; errors := 0 |}.

(** [track.stop()] on every track of a stream. *)
Definition stop_tracks (s : nat) (st : State) : State :=
  {| facingMode := facingMode st; stream := stream st; mounted := mounted st;
     srcObject := srcObject st; activeStream := activeStream st;
     pending := pending st;
     streams := alter (λ '(f, ts), (f, (λ _, ended) <$> ts)) s (streams st);
     errors := errors st |}.

(** Lines 58 and 36-44: a run of the effect, up to the [await]. *)
Definition run_effect (st : State) : State :=
  {| facingMode := facingMode st; stream := stream st; mounted := mounted st;
     srcObject := srcObject st;
     activeStream := activeStream st ++ [None];
     pending := pending st ++ [(length (activeStream st), facingMode st)];
     streams := streams st; errors := errors st |}.

(** Lines 60-64: the cleanup of the latest run. *)
Definition cleanup (st : State) : State :=
  match last (activeStream st) with
  | Some (Some s) => stop_tracks s st
  | _ => st
  end.

Definition is_pending (run : nat) (st : State) : option FacingMode :=
  match list_find (λ p, p.1 = run) (pending st) with
  | Some (_, (_, facing)) => Some facing
  | None => None
  end.

Definition settle (run : nat) (st : State) : list (nat * FacingMode) :=
  filter (λ p, p.1 ≠ run) (pending st).

Inductive CameraEvent : Type :=
  | Mount                  (* first render, first run of the effect *)
  | SwitchCamera           (* the button: toggleCamera, render, cleanup, next run *)
  | Granted (run : nat)    (* the getUserMedia call of that run resolves *)
  | Denied (run : nat)     (* it rejects *)
  | Unmount.

Definition step (st : State) (ev : CameraEvent) : State :=
  match ev with
  | Mount =>
      if mounted st then st
      else run_effect
             {| facingMode := environment; stream := None; mounted := true;
                srcObject := None; activeStream := activeStream st;
                pending := pending st; streams := streams st;
                errors := errors st |}
  | SwitchCamera =>
      if mounted st then
        let st := cleanup st in
        run_effect
          {| facingMode := toggleCamera (facingMode st); stream := stream st;
             mounted := mounted st; srcObject := srcObject st;
             activeStream := activeStream st; pending := pending st;
             streams := streams st; errors := errors st |}
      else st
  | Granted run =>
      match is_pending run st with
      | Some facing =>
          (* lines 45-52 *)
          let mediaStream := length (streams st) in
          {| facingMode := facingMode st;
             stream := if mounted st then Some mediaStream else stream st;
             mounted := mounted st;
             srcObject := if mounted st then Some mediaStream else srcObject st;
             activeStream := <[run := Some mediaStream]> (activeStream st);
             pending := settle run st;
             streams := streams st ++ [(facing, [live])];
             errors := errors st |}
      | None => st
      end
  | Denied run =>
      match is_pending run st with
      | Some _ =>
          (* lines 53-55 *)
          {| facingMode := facingMode st; stream := stream st;
             mounted := mounted st; srcObject := srcObject st;
             activeStream := activeStream st; pending := settle run st;
             streams := streams st; errors := S (errors st) |}
      | None => st
      end
  | Unmount =>
      if mounted st then
        let st := cleanup st in
        {| facingMode := facingMode st; stream := stream st; mounted := false;
           srcObject := None; activeStream := activeStream st;
           pending := pending st; streams := streams st; errors := errors st |}
      else st
  end.

Definition run (evs : list CameraEvent) : State := foldl step unmounted evs.

Definition is_live (s : FacingMode * list ReadyState) : bool :=
  existsb (λ t, match t with live => true | ended => false end) s.2.

(** The streams that still hold the camera. *)
Definition live_streams (st : State) : list (FacingMode * list ReadyState) :=
  List.filter is_live (streams st).

(** The states reached when the user is patient: the button is pressed,
    and the component unmounted, only when no [getUserMedia] call is
    pending. *)
Inductive patient : State → Prop :=
  | patient_unmounted : patient unmounted
  | patient_step st ev :
      patient st →
      (ev = SwitchCamera ∨ ev = Unmount → pending st = []) →
      patient (step st ev).

Definition no_live (st : State) : Prop :=
  Forall (λ x, is_live x = false) (streams st).

(** What holds in the states of a patient user. *)
Definition invariant (st : State) : Prop :=
  (∀ r f, (r, f) ∈ pending st →
          S r = length (activeStream st) ∧ last (activeStream st) = Some None)
  ∧ (∀ s x, streams st !! s = Some x → is_live x = true →
            last (activeStream st) = Some (Some s))
  ∧ (mounted st = false → pending st = [] ∧ no_live st).

End MobileCamera.

(** ** MobileCamera: [capturePhoto] (page.tsx, 67-78)

    The frame is drawn on a canvas of the size of the video, 640 by 480
    where the video has no size yet, and the canvas is read as a JPEG
    data URI. The JPEG encoder belongs to the platform: [jpeg video w h]
    stands for the bytes of the file it makes of the frame of [video]
    drawn at [w] by [h]. *)

Module MobileCapture.

Record Video : Type := mkVideo {
  videoWidth : N;
  videoHeight : N
}.

(** [n || fallback] on numbers: [0] is falsy. *)
Definition or_else (n fallback : N) : N :=
  if n =? 0 then fallback else n.

(** [canvas.toDataURL("image/jpeg")]: the text [data:,] for a canvas
    without pixels, else the base64 of the JPEG file. *)
Definition toDataURL_jpeg (file : N → N → list N) (width height : N) : jsstring :=
  if (width =? 0) || (height =? 0) then lit "data:,"
  else data_uri (lit "image/jpeg") (Base64.btoa (file width height)).

(** The argument [capturePhoto] calls [onCapture] with, [None] when it
    does not call it. [videoRef_current] is [videoRef.current],
    [getContext_2d] tells whether [canvas.getContext("2d")] gave a
    context. *)
Definition capturePhoto (jpeg : Video → N → N → list N)
    (videoRef_current : option Video) (getContext_2d : bool) : option Image :=
  match videoRef_current with
  | None => None
  | Some video =>
      let width := or_else (videoWidth video) 640 in
      let height := or_else (videoHeight video) 480 in
      if getContext_2d then
        let imageData := toDataURL_jpeg (jpeg video) width height in
        Some (ImageString imageData)
      else None
  end.

End MobileCapture.

(** ** DesktopCamera (page.tsx, 110-164)

    The webcam itself is the component of [react-webcam]; of it the page
    uses [getScreenshot], which gives a data URI or [null]. The state of
    the component is [showWebcam]. *)

Module DesktopCamera.

(** Lines 114-119. [getScreenshot] is the value of
    [webcamRef.current?.getScreenshot()]: [None] for [undefined] (no
    webcam mounted) and for [null]. *)
Definition capturePhoto (getScreenshot : option jsstring) : option Image :=
  match getScreenshot with
  | Some (c :: imageSrc) => Some (ImageString (c :: imageSrc))
  | Some [] | None => None
  end.

(** Lines 151-157: [file] is [e.target.files?.[0]]. *)
Definition onFileChange (file : option Blob) : option Image :=
  match file with
  | Some file => Some (ImageBlob file)
  | None => None
  end.

Inductive Event : Type :=
  | OpenWebcam                                     (* setShowWebcam(true) *)
  | CloseWebcam                                    (* setShowWebcam(false) *)
  | CapturePhoto (getScreenshot : option jsstring) (* the capture button *)
  | FileChange (file : option Blob).               (* the file input *)

(** A step of the component: the next [showWebcam], and what is passed
    to [onCapture]. The webcam and the capture button are there only
    while [showWebcam] holds. *)
Definition step (showWebcam : bool) (ev : Event) : bool * option Image :=
  match ev with
  | OpenWebcam => (true, None)
  | CloseWebcam => (false, None)
  | CapturePhoto getScreenshot =>
      (showWebcam, if showWebcam then capturePhoto getScreenshot else None)
  | FileChange file => (showWebcam, onFileChange file)
  end.

(** A run of the component: the final [showWebcam] and the images
    passed to [onCapture], in order. *)
Fixpoint run (showWebcam : bool) (evs : list Event) : bool * list Image :=
  match evs with
  | [] => (showWebcam, [])
  | ev :: evs =>
      let '(showWebcam', emitted) := step showWebcam ev in
      let '(final, images) := run showWebcam' evs in
      (final, match emitted with
              | Some image => image :: images
              | None => images
              end)
  end.

End DesktopCamera.

(** ** Counting what a run of the page does *)

(** The event makes a request: a capture whose form data is built, or a
    chosen file. *)
Definition posts (ev : PageEvent) : bool :=
  match ev with
  | Capture _ data =>
      match buildFormData data with inr _ => true | inl _ => false end
  | MobileFileChange _ (Some _) => true
  | MobileFileChange _ None => false
  end.

(** The event makes an object URL: a blob or a file. *)
Definition makes_object_url (ev : PageEvent) : bool :=
  match ev with
  | Capture _ (ImageBlob _) | MobileFileChange _ (Some _) => true
  | _ => false
  end.

(** The event stores a preview. *)
Definition stores_preview (ev : PageEvent) : bool :=
  match ev with
  | MobileFileChange _ None => false
  | _ => true
  end.

(** The shape of the requests of the page: a POST to [/api/upload] whose
    form data has one entry. *)
Definition upload_shaped (r : Request) : Prop :=
  req_method r = lit "POST"
  ∧ endsWith (req_url r) (lit "/api/upload") = true
  ∧ length (req_body r) = 1%nat.

(** * Proofs *)

(** Case analysis on the boolean comparisons of [N] in the goal. *)
Ltac cmp_cases :=
  repeat match goal with
    | |- context [?a <=? ?b] => destruct (N.leb_spec a b)
    | |- context [?a <? ?b] => destruct (N.ltb_spec a b)
    | |- context [?a =? ?b] => destruct (N.eqb_spec a b)
    | H : context [?a <=? ?b] |- _ => destruct (N.leb_spec a b)
    | H : context [?a <? ?b] |- _ => destruct (N.ltb_spec a b)
    | H : context [?a =? ?b] |- _ => destruct (N.eqb_spec a b)
    end.

(** Linear arithmetic with division and remainder by constants. *)
Ltac divmod := zify; Z.to_euclidean_division_equations; lia.

Module Base64Facts.
Import Base64.

Lemma value_lt c v : value c = Some v → v < 64.
Proof.
  unfold value, Chr.plus, Chr.slash. cmp_cases; simpl; intros [= <-]; lia.
Qed.

Lemma char_value c v : value c = Some v → char v = c.
Proof.
  unfold value, char, Chr.plus, Chr.slash.
  cmp_cases; simpl; intros [= <-]; cmp_cases; lia.
Qed.

Lemma value_char v : v < 64 → value (char v) = Some v.
Proof.
  unfold value, char, Chr.plus, Chr.slash. intros Hv.
  cmp_cases; simpl; try f_equal; lia.
Qed.

Lemma alphabet_value c : is_alphabet c = true → ∃ v, value c = Some v.
Proof. unfold is_alphabet. destruct (value c); [eauto | done]. Qed.

Lemma value_not_equals c v : value c = Some v → c ≠ Chr.equals.
Proof.
  unfold value, Chr.plus, Chr.slash, Chr.equals.
  cmp_cases; simpl; intros [= <-]; lia.
Qed.

Lemma value_not_whitespace c v : value c = Some v → is_ascii_whitespace c = false.
Proof.
  unfold value, is_ascii_whitespace, Chr.plus, Chr.slash,
    Chr.tab, Chr.lf, Chr.ff, Chr.cr, Chr.space.
  cmp_cases; simpl; intros [= <-]; lia || reflexivity.
Qed.


Lemma list_ind4 {A} (P : list A → Prop) :
  P [] → (∀ a, P [a]) → (∀ a b, P [a; b]) → (∀ a b c, P [a; b; c]) →
  (∀ a b c d l, P l → P (a :: b :: c :: d :: l)) →
  ∀ l, P l.
Proof.
  intros H0 H1 H2 H3 H4.
  fix IH 1.
  intros [|a [|b [|c [|d l]]]];
    [apply H0 | apply H1 | apply H2 | apply H3 | apply H4, IH].
Qed.

(** One full quadruple: three bytes and back. *)
Lemma quad_roundtrip a b c d :
  a < 64 → b < 64 → c < 64 → d < 64 →
  let n := a * 262144 + b * 4096 + c * 64 + d in
  let m := (n / 65536) mod 256 * 65536 + ((n / 256) mod 256) mod 256 * 256
           + (n mod 256) mod 256 in
  m / 262144 = a ∧ (m / 4096) mod 64 = b ∧ (m / 64) mod 64 = c ∧ m mod 64 = d.
Proof.
  intros Ha Hb Hc Hd n m.
  assert (Hm : m = n) by (subst n m; divmod).
  rewrite Hm. subst n. repeat split; divmod.
Qed.

(** Three sextets, the low two bits of the last one zero: two bytes. *)
Lemma triple_roundtrip a b c :
  a < 64 → b < 64 → c < 64 → c mod 4 = 0 →
  let n := (a * 4096 + b * 64 + c) / 4 in
  let m := ((n / 256) mod 256 * 256 + (n mod 256) mod 256) * 4 in
  m / 4096 = a ∧ (m / 64) mod 64 = b ∧ m mod 64 = c.
Proof.
  intros Ha Hb Hc H0 n m.
  assert (Hm : m = a * 4096 + b * 64 + c) by (subst n m; divmod).
  rewrite Hm. repeat split; divmod.
Qed.

(** Two sextets, the low four bits of the last one zero: one byte. *)
Lemma pair_roundtrip a b :
  a < 64 → b < 64 → b mod 16 = 0 →
  let n := (a * 64 + b) / 16 in
  let m := n mod 256 * 16 in
  m / 64 = a ∧ m mod 64 = b.
Proof.
  intros Ha Hb H0 n m.
  assert (Hm : m = a * 64 + b) by (subst n m; divmod).
  rewrite Hm. split; divmod.
Qed.

Lemma strip_padding_cons c rest :
  c ≠ Chr.equals → strip_padding (c :: rest) = c :: strip_padding rest.
Proof.
  intros Hc. cbn [strip_padding].
  destruct (N.eqb_spec c Chr.equals); [done | reflexivity].
Qed.

Lemma strip_padding_quad a b c d rest va vb vc vd :
  value a = Some va → value b = Some vb → value c = Some vc → value d = Some vd →
  strip_padding (a :: b :: c :: d :: rest) = a :: b :: c :: d :: strip_padding rest.
Proof.
  intros Ha Hb Hc Hd.
  rewrite !strip_padding_cons; eauto using value_not_equals.
Qed.

Lemma length_quad {A} (a b c d : A) l :
  N.of_nat (length (a :: b :: c :: d :: l)) mod 4 = N.of_nat (length l) mod 4.
Proof. cbn [length]. divmod. Qed.

(** The decoder on canonical text, after the padding is stripped. *)
Lemma canonical_decode s :
  canonical s = true →
  ∃ vs, values (strip_padding s) = Some vs
        ∧ N.of_nat (length (strip_padding s)) mod 4 ≠ 1
        ∧ btoa (to_bytes (decode_sextets vs)) = s.
Proof.
  induction s as [|a|a b|a b c|a b c d l IH] using list_ind4; try done.
  { exists []. done. }
  destruct l as [|e l].
  - (* the last quadruple *)
    clear IH. cbn [canonical].
    destruct (N.eqb_spec d Chr.equals) as [->|Hd];
      [destruct (N.eqb_spec c Chr.equals) as [->|Hc]|].
    + rewrite andb_true_iff. intros [[va Ha]%alphabet_value Hb].
      unfold low_bits_zero in Hb. destruct (value b) as [vb|] eqn:Eb; [|done].
      apply N.eqb_eq in Hb.
      exists [va; vb].
      rewrite !strip_padding_cons by eauto using value_not_equals.
      cbn [strip_padding values]. rewrite Ha, Eb. repeat split; [done|].
      cbn [decode_sextets to_bytes fmap list_fmap btoa].
      destruct (pair_roundtrip va vb) as [-> ->]; eauto using value_lt.
      by rewrite (char_value a va), (char_value b vb).
    + rewrite !andb_true_iff.
      intros [[[va Ha]%alphabet_value [vb Eb]%alphabet_value] H3].
      unfold low_bits_zero in H3. destruct (value c) as [vc|] eqn:Ec; [|done].
      apply N.eqb_eq in H3.
      exists [va; vb; vc].
      rewrite !strip_padding_cons by eauto using value_not_equals.
      cbn [strip_padding values]. rewrite Ha, Eb, Ec. repeat split; [done|].
      cbn [decode_sextets to_bytes fmap list_fmap btoa].
      destruct (triple_roundtrip va vb vc) as (-> & -> & ->); eauto using value_lt.
      by rewrite (char_value a va), (char_value b vb), (char_value c vc).
    + rewrite !andb_true_iff.
      intros [[[[va Ha]%alphabet_value [vb Eb]%alphabet_value]
                [vc Ec]%alphabet_value] [vd Ed]%alphabet_value].
      exists [va; vb; vc; vd].
      rewrite !strip_padding_cons by eauto using value_not_equals.
      cbn [strip_padding values]. rewrite Ha, Eb, Ec, Ed. repeat split; [done|].
      cbn [decode_sextets to_bytes fmap list_fmap btoa].
      destruct (quad_roundtrip va vb vc vd) as (-> & -> & -> & ->);
        eauto using value_lt.
      by rewrite (char_value a va), (char_value b vb), (char_value c vc),
        (char_value d vd).
  - (* a quadruple followed by more text *)
    change (canonical (a :: b :: c :: d :: e :: l))
      with (is_alphabet a && is_alphabet b && is_alphabet c && is_alphabet d
            && canonical (e :: l)).
    rewrite !andb_true_iff.
    intros [[[[[va Ha]%alphabet_value [vb Eb]%alphabet_value]
               [vc Ec]%alphabet_value] [vd Ed]%alphabet_value] Hl].
    destruct (IH Hl) as (vs & Hvs & Hlen & Hrt).
    exists (va :: vb :: vc :: vd :: vs).
    rewrite (strip_padding_quad a b c d _ va vb vc vd) by done.
    rewrite length_quad. cbn [values]. rewrite Ha, Eb, Ec, Ed, Hvs.
    repeat split; [done|].
    cbn [decode_sextets to_bytes fmap list_fmap btoa]. fold (to_bytes (decode_sextets vs)).
    destruct (quad_roundtrip va vb vc vd) as (-> & -> & -> & ->);
      eauto using value_lt.
    rewrite (char_value a va), (char_value b vb), (char_value c vc),
      (char_value d vd) by done.
    by rewrite Hrt.
Qed.

Lemma canonical_shape s :
  canonical s = true →
  Forall (λ c, is_alphabet c = true ∨ c = Chr.equals) s
  ∧ N.of_nat (length s) mod 4 = 0.
Proof.
  induction s as [|a|a b|a b c|a b c d l IH] using list_ind4; try done.
  destruct l as [|e l].
  - clear IH. cbn [canonical]. intros H. split; [|done].
    unfold low_bits_zero, is_alphabet in *.
    repeat apply Forall_cons_2; try apply Forall_nil_2;
      cmp_cases; subst; auto;
      repeat (apply andb_true_iff in H as [H ?]);
      repeat case_match; auto; done.
  - change (canonical (a :: b :: c :: d :: e :: l))
      with (is_alphabet a && is_alphabet b && is_alphabet c && is_alphabet d
            && canonical (e :: l)).
    rewrite !andb_true_iff. intros [[[[Ha Hb] Hc] Hd] Hl].
    destruct (IH Hl) as [HF Hlen]. split.
    + do 4 (apply Forall_cons_2; [auto|]). done.
    + by rewrite length_quad.
Qed.

Lemma remove_whitespace_id s :
  Forall (λ c, is_ascii_whitespace c = false) s → remove_whitespace s = s.
Proof.
  unfold remove_whitespace. induction 1 as [|c s Hc _ IH]; [done|].
  rewrite filter_cons_True by done. by rewrite IH.
Qed.

Lemma equals_not_whitespace : is_ascii_whitespace Chr.equals = false.
Proof. reflexivity. Qed.

(** On canonical text the decoder succeeds and encoding its bytes gives
    the text back. *)
Lemma atob_canonical s :
  canonical s = true →
  ∃ byteString, atob s = inr byteString ∧ btoa (to_bytes byteString) = s.
Proof.
  intros Hs. destruct (canonical_shape s Hs) as [HF Hlen].
  destruct (canonical_decode s Hs) as (vs & Hvs & Hne & Hrt).
  exists (decode_sextets vs). split; [|done].
  unfold atob. rewrite remove_whitespace_id.
  - rewrite Hlen. cbn [N.eqb].
    destruct (N.eqb_spec (N.of_nat (length (strip_padding s)) mod 4) 1); [done|].
    by rewrite Hvs.
  - eapply Forall_impl; [exact HF|]. intros c [[v Hv]%alphabet_value | ->].
    + by eapply value_not_whitespace.
    + apply equals_not_whitespace.
Qed.

Lemma values_Forall2 s vs :
  values s = Some vs → Forall2 (λ c v, value c = Some v) s vs.
Proof.
  revert vs. induction s as [|c s IH]; intros vs; cbn [values].
  - intros [= <-]. constructor.
  - destruct (value c) as [v|] eqn:Ec; [|done].
    destruct (values s) as [vs'|]; [|done].
    intros [= <-]. constructor; auto.
Qed.

Lemma values_lt s vs : values s = Some vs → Forall (λ v, v < 64) vs.
Proof.
  intros H%values_Forall2. induction H; constructor; eauto using value_lt.
Qed.

Lemma decode_sextets_lt vs :
  Forall (λ v, v < 64) vs → Forall (λ x, x < 256) (decode_sextets vs).
Proof.
  induction vs as [|a|a b|a b c|a b c d l IH] using list_ind4;
    intros H; cbn [decode_sextets]; try apply Forall_nil_2.
  - apply Forall_cons in H as [Ha [Hb _]%Forall_cons].
    repeat apply Forall_cons_2; try apply Forall_nil_2. divmod.
  - apply Forall_cons in H as [Ha [Hb [Hc _]%Forall_cons]%Forall_cons].
    repeat apply Forall_cons_2; try apply Forall_nil_2; divmod.
  - apply Forall_cons in H as
        [Ha [Hb [Hc [Hd Hl]%Forall_cons]%Forall_cons]%Forall_cons].
    repeat apply Forall_cons_2; auto; divmod.
Qed.

Lemma to_bytes_id bs : Forall (λ x, x < 256) bs → to_bytes bs = bs.
Proof.
  unfold to_bytes. induction 1 as [|x bs Hx _ IH]; [done|].
  cbn [fmap list_fmap]. fold (fmap (M:=list) (λ c : N, c mod 256) bs).
  rewrite IH. f_equal. by apply N.mod_small.
Qed.

(** What [atob] returns is a binary string: storing it into a
    [Uint8Array] loses nothing. *)
Lemma atob_binary s byteString :
  atob s = inr byteString → to_bytes byteString = byteString.
Proof.
  unfold atob. intros H. apply to_bytes_id.
  repeat case_match; try done; simplify_eq;
    eauto using decode_sextets_lt, values_lt.
Qed.

Lemma strip_padding_elem c s :
  c ≠ Chr.equals → c ∈ s → c ∈ strip_padding s.
Proof.
  intros Hc. induction s as [|x s IH]; [done|].
  intros Hin. cbn [strip_padding].
  destruct (N.eqb_spec x Chr.equals) as [->|Hx]; cbn [andb].
  - apply elem_of_cons in Hin as [?|Hin]; [done|].
    destruct s as [|y [|z s]].
    + by apply elem_of_nil in Hin.
    + destruct (N.eqb_spec y Chr.equals) as [->|Hy].
      * apply list_elem_of_singleton in Hin. done.
      * right. by apply IH.
    + right. by apply IH.
  - apply elem_of_cons in Hin as [->|Hin]; [left | right; by apply IH].
Qed.

Lemma values_elem c s vs : values s = Some vs → c ∈ s → is_alphabet c = true.
Proof.
  intros H%values_Forall2 Hin. unfold is_alphabet.
  induction H as [|x v s vs Hx _ IH]; [by apply elem_of_nil in Hin|].
  apply elem_of_cons in Hin as [->|Hin]; [by rewrite Hx | auto].
Qed.

(** Text that [atob] accepts has no comma. *)
Lemma atob_no_comma s byteString :
  atob s = inr byteString → Forall (λ c, c ≠ Chr.comma) s.
Proof.
  intros H. apply Forall_forall. intros c Hin ->.
  assert (Hw : Chr.comma ∈ remove_whitespace s).
  { unfold remove_whitespace. apply list_elem_of_filter. done. }
  unfold atob in H.
  assert (Hs : Chr.comma ∈ strip_padding (remove_whitespace s))
    by (by apply strip_padding_elem).
  repeat case_match; try done;
    match goal with
    | Hv : values _ = Some _ |- _ =>
        eapply values_elem in Hv; [|eassumption]; done
    end.
Qed.

End Base64Facts.

(** The decoder and the encoder on small texts. *)
Example atob_QUJD : Base64.atob (lit "QUJD") = inr (lit "ABC").
Proof. reflexivity. Qed.

Example atob_padded : Base64.atob (lit "QUI=") = inr (lit "AB").
Proof. reflexivity. Qed.

Example atob_spaces_no_padding : Base64.atob (lit " Q Q ") = inr (lit "A").
Proof. reflexivity. Qed.

Example atob_stars :
  Base64.atob (lit "***invalid***") = inl InvalidCharacterError.
Proof. reflexivity. Qed.

Example atob_undefined : Base64.atob (lit "undefined") = inl InvalidCharacterError.
Proof. reflexivity. Qed.

Example btoa_ABC : Base64.btoa (lit "ABC") = lit "QUJD".
Proof. reflexivity. Qed.

Example btoa_A : Base64.btoa (lit "A") = lit "QQ==".
Proof. reflexivity. Qed.

(** ** Strings *)

Example split_commas :
  split Chr.comma (lit "a,b,,c") = [lit "a"; lit "b"; []; lit "c"].
Proof. reflexivity. Qed.

Example match_skips_broken_line :
  match_colon_semicolon (lit "a:b" ++ [Chr.lf] ++ lit "c:d;e") = Some (lit "d").
Proof. reflexivity. Qed.

Lemma split_no_sep sep p :
  Forall (λ c, c ≠ sep) p → split sep p = [p].
Proof.
  induction 1 as [|c p Hc _ IH]; [done|].
  cbn [split]. destruct (N.eqb_spec c sep); [done|]. by rewrite IH.
Qed.

Lemma split_app_sep sep p rest :
  Forall (λ c, c ≠ sep) p → split sep (p ++ sep :: rest) = p :: split sep rest.
Proof.
  induction 1 as [|c p Hc _ IH]; cbn [app split].
  - by rewrite N.eqb_refl.
  - destruct (N.eqb_spec c sep); [done|]. by rewrite IH.
Qed.

(** [parts[0]] is the text before the first comma. *)
Lemma split_head s :
  default [] (split Chr.comma s !! 0%nat) = before_first_comma s.
Proof.
  induction s as [|c s IH]; [done|].
  cbn [split before_first_comma]. destruct (c =? Chr.comma); [done|].
  destruct (split Chr.comma s) as [|p ps]; cbn in *; by rewrite <- IH.
Qed.

Lemma before_first_comma_app p rest :
  Forall (λ c, c ≠ Chr.comma) p →
  before_first_comma (p ++ Chr.comma :: rest) = p.
Proof.
  induction 1 as [|c p Hc _ IH]; cbn [app before_first_comma].
  - by rewrite N.eqb_refl.
  - destruct (N.eqb_spec c Chr.comma); [done|]. by rewrite IH.
Qed.

Lemma lazy_until_semicolon_app m rest :
  Forall (λ c, c ≠ Chr.semicolon ∧ is_line_terminator c = false) m →
  lazy_until_semicolon (m ++ Chr.semicolon :: rest) = Some m.
Proof.
  induction 1 as [|c m [Hc Hlt] _ IH]; cbn [app lazy_until_semicolon].
  - by rewrite N.eqb_refl.
  - destruct (N.eqb_spec c Chr.semicolon); [done|]. by rewrite Hlt, IH.
Qed.

Lemma mime_char_spec c :
  mime_char c = true →
  c ≠ Chr.comma ∧ c ≠ Chr.semicolon ∧ is_line_terminator c = false.
Proof.
  unfold mime_char. rewrite !andb_true_iff, !negb_true_iff.
  intros [[H1 H2] H3]. by apply N.eqb_neq in H1, H2.
Qed.

Lemma lit_data : lit "data:" = [100; 97; 116; 97; Chr.colon].
Proof. reflexivity. Qed.

Lemma lit_base64_comma : lit ";base64," = Chr.semicolon :: lit "base64" ++ [Chr.comma].
Proof. reflexivity. Qed.

Lemma data_uri_prefix mime payload :
  data_uri mime payload
  = (lit "data:" ++ mime ++ Chr.semicolon :: lit "base64") ++ Chr.comma :: payload.
Proof.
  unfold data_uri. rewrite lit_base64_comma. by rewrite <- !app_assoc.
Qed.

Lemma data_uri_prefix_no_comma mime :
  forallb mime_char mime = true →
  Forall (λ c, c ≠ Chr.comma) (lit "data:" ++ mime ++ Chr.semicolon :: lit "base64").
Proof.
  intros Hm. apply Forall_app. split; [|apply Forall_app; split].
  - by repeat constructor.
  - apply Forall_forall. intros c Hc.
    rewrite forallb_forall in Hm. apply mime_char_spec, Hm.
    by apply list_elem_of_In.
  - by repeat constructor.
Qed.

Lemma data_uri_split mime payload :
  forallb mime_char mime = true →
  Forall (λ c, c ≠ Chr.comma) payload →
  split Chr.comma (data_uri mime payload)
  = [lit "data:" ++ mime ++ Chr.semicolon :: lit "base64"; payload].
Proof.
  intros Hm Hp. rewrite data_uri_prefix.
  rewrite split_app_sep by by apply data_uri_prefix_no_comma.
  by rewrite split_no_sep.
Qed.

Lemma data_uri_mime mime rest :
  forallb mime_char mime = true →
  match_colon_semicolon (lit "data:" ++ mime ++ Chr.semicolon :: rest) = Some mime.
Proof.
  intros Hm. rewrite lit_data. cbn [app match_colon_semicolon].
  change (100 =? Chr.colon) with false. change (97 =? Chr.colon) with false.
  change (116 =? Chr.colon) with false. cbv iota.
  rewrite N.eqb_refl, lazy_until_semicolon_app; [done|].
  apply Forall_forall. intros c Hc.
  rewrite forallb_forall in Hm. apply list_elem_of_In, Hm, mime_char_spec in Hc.
  tauto.
Qed.

(** The decoding of a data URI whose payload [atob] accepts. *)
Lemma base64ToBlob_data_uri mime payload byteString :
  forallb mime_char mime = true →
  Base64.atob payload = inr byteString →
  base64ToBlob (data_uri mime payload) = inr (new_Blob byteString mime).
Proof.
  intros Hm Hp. unfold base64ToBlob.
  rewrite data_uri_split by eauto using Base64Facts.atob_no_comma.
  cbn [lookup list_lookup default id]. rewrite Hp. cbn [mbind result_bind].
  rewrite data_uri_mime by done. cbn [non_null].
  by rewrite (Base64Facts.atob_binary payload).
Qed.

(** ** The upload *)

Section UploadFacts.

Context {JSValue : Type}.
Variable JSON_parse : jsstring → option JSValue.

Lemma handleImageUpload_built env image formData :
  buildFormData image = inr formData →
  handleImageUpload JSON_parse env image = postFormData JSON_parse env formData.
Proof.
  intros H. unfold handleImageUpload. rewrite H.
  cbn. by destruct (postFormData JSON_parse env formData).
Qed.

Lemma handleImageUpload_thrown env image e :
  buildFormData image = inl e →
  handleImageUpload JSON_parse env image = ([], inl e).
Proof. intros H. unfold handleImageUpload. by rewrite H. Qed.

(** The five ways a request can end. *)
Lemma postFormData_rejected env formData e :
  network env (upload_request env formData) = inl e →
  postFormData JSON_parse env formData
  = ([Fetch (upload_request env formData);
      ConsoleError [CStr (lit "Error uploading image:"); CErr e]], inr tt).
Proof. intros H. unfold postFormData, fetch. by rewrite H. Qed.

Lemma postFormData_not_ok env formData r t :
  network env (upload_request env formData) = inr r →
  ok r = false → body r = inr t →
  postFormData JSON_parse env formData
  = ([Fetch (upload_request env formData);
      ConsoleError [CStr (lit "Upload error"); CNum (status r); CStr t]], inr tt).
Proof.
  intros H Hok Hb. unfold postFormData, fetch, text. rewrite H. cbn.
  by rewrite Hok, Hb.
Qed.

Lemma postFormData_not_ok_unread env formData r e :
  network env (upload_request env formData) = inr r →
  ok r = false → body r = inl e →
  postFormData JSON_parse env formData
  = ([Fetch (upload_request env formData);
      ConsoleError [CStr (lit "Error uploading image:"); CErr e]], inr tt).
Proof.
  intros H Hok Hb. unfold postFormData, fetch, text. rewrite H. cbn.
  by rewrite Hok, Hb.
Qed.

Lemma postFormData_ok env formData r data :
  network env (upload_request env formData) = inr r →
  ok r = true → json JSON_parse r = inr data →
  postFormData JSON_parse env formData
  = ([Fetch (upload_request env formData);
      ConsoleLog [CStr (lit "Server response:"); CJson data]], inr tt).
Proof.
  intros H Hok Hj. unfold postFormData, fetch. rewrite H. cbn.
  by rewrite Hok, Hj.
Qed.

Lemma postFormData_ok_no_json env formData r e :
  network env (upload_request env formData) = inr r →
  ok r = true → json JSON_parse r = inl e →
  postFormData JSON_parse env formData
  = ([Fetch (upload_request env formData);
      ConsoleError [CStr (lit "Error uploading image:"); CErr e]], inr tt).
Proof.
  intros H Hok Hj. unfold postFormData, fetch. rewrite H. cbn.
  by rewrite Hok, Hj.
Qed.

(** Whatever the network does: one request, and the promise resolves. *)
Lemma postFormData_one_request env formData :
  requests (postFormData JSON_parse env formData).1 = [upload_request env formData]
  ∧ (postFormData JSON_parse env formData).2 = inr tt.
Proof.
  destruct (network env (upload_request env formData)) as [e|r] eqn:H.
  - by rewrite (postFormData_rejected _ _ e).
  - destruct (ok r) eqn:Hok.
    + destruct (json JSON_parse r) as [e|data] eqn:Hj.
      * by rewrite (postFormData_ok_no_json _ _ r e).
      * by rewrite (postFormData_ok _ _ r data).
    + destruct (body r) as [e|t] eqn:Hb.
      * by rewrite (postFormData_not_ok_unread _ _ r e).
      * by rewrite (postFormData_not_ok _ _ r t).
Qed.

End UploadFacts.

(** ** Normalization of data URIs *)

Lemma startsWith_app p s : startsWith (p ++ s) p = true.
Proof. induction p as [|c p IH]; [done|]. cbn. by rewrite N.eqb_refl. Qed.

Lemma endsWith_app s suffix : endsWith (s ++ suffix) suffix = true.
Proof. unfold endsWith. rewrite reverse_app. apply startsWith_app. Qed.

Lemma after_first_comma_app p rest :
  Forall (λ c, c ≠ Chr.comma) p →
  after_first_comma (p ++ Chr.comma :: rest) = Some rest.
Proof.
  induction 1 as [|c p Hc _ IH]; cbn [app after_first_comma].
  - by rewrite N.eqb_refl.
  - destruct (N.eqb_spec c Chr.comma); [done|]. by rewrite IH.
Qed.

Lemma data_uri_well_formed mime payload byteString :
  forallb mime_char mime = true →
  Base64.atob payload = inr byteString →
  well_formed_data_uri (data_uri mime payload) = true.
Proof.
  intros Hm Hp. unfold well_formed_data_uri. rewrite data_uri_prefix.
  rewrite before_first_comma_app, after_first_comma_app
    by by apply data_uri_prefix_no_comma.
  rewrite Hp, andb_true_r. unfold matches_data_uri_pattern.
  rewrite startsWith_app.
  change (Chr.semicolon :: lit "base64") with (lit ";base64").
  rewrite !app_assoc, endsWith_app. cbn [andb].
  apply N.leb_le. rewrite !length_app. cbn [length lit]. 
  change (length (lit "data:")) with 5%nat.
  change (length (lit ";base64")) with 7%nat. lia.
Qed.

(** C1, as stated, fails: the decoder accepts text that no encoder
    emits. In [QR==] the four low bits of the second sextet are not
    zero; [atob] drops them, the decoded byte is [A], and encoding [A]
    gives [QQ==]. *)
Lemma well_formed_data_uri_not_lossless :
  let image := lit "data:image/jpeg;base64,QR==" in
  well_formed_data_uri image = true
  ∧ after_first_comma image = Some (lit "QR==")
  ∧ ∃ blob, base64ToBlob image = inr blob
            ∧ blob_bytes blob = lit "A"
            ∧ Base64.btoa (blob_bytes blob) = lit "QQ=="
            ∧ Base64.btoa (blob_bytes blob) ≠ lit "QR==".
Proof.
  repeat split; try reflexivity.
  eexists. repeat split; try reflexivity. vm_compute. discriminate.
Qed.

(** C1 (amended). For a data URI [data:<mime>;base64,<payload>] whose
    payload is canonical base64, [base64ToBlob] succeeds, encoding the
    bytes of the blob as base64 gives the payload back, the MIME type
    the regular expression extracts is the text between the first [:]
    and the first [;] after it, and the type of the blob is that text
    as the [Blob] constructor normalizes it. Such a URI is well formed
    in the sense of the specification. *)
Theorem canonical_data_uri_lossless mime payload :
  forallb mime_char mime = true →
  Base64.canonical payload = true →
  well_formed_data_uri (data_uri mime payload) = true
  ∧ match_colon_semicolon (before_first_comma (data_uri mime payload)) = Some mime
  ∧ ∃ blob, base64ToBlob (data_uri mime payload) = inr blob
            ∧ Base64.btoa (blob_bytes blob) = payload
            ∧ blob_type blob = normalize_type mime.
Proof.
  intros Hm Hp.
  destruct (Base64Facts.atob_canonical payload Hp) as (byteString & Hdec & Hrt).
  split; [by eapply data_uri_well_formed|]. split.
  - rewrite data_uri_prefix, before_first_comma_app
      by by apply data_uri_prefix_no_comma.
    by apply data_uri_mime.
  - exists (new_Blob byteString mime). split; [by apply base64ToBlob_data_uri|].
    split; [|done]. cbn [new_Blob blob_bytes].
    by rewrite <- (Base64Facts.atob_binary payload byteString Hdec).
Qed.

(** The round trip on the first bytes of a JPEG file. *)
Lemma canonical_data_uri_lossless_witness :
  forallb mime_char (lit "image/jpeg") = true
  ∧ Base64.canonical jpeg_header_base64 = true
  ∧ ∃ blob, base64ToBlob (data_uri (lit "image/jpeg") jpeg_header_base64) = inr blob
            ∧ Base64.btoa (blob_bytes blob) = jpeg_header_base64
            ∧ blob_type blob = normalize_type (lit "image/jpeg").
Proof.
  split; [reflexivity|]. split; [reflexivity|].
  apply (canonical_data_uri_lossless (lit "image/jpeg") jpeg_header_base64);
    reflexivity.
Defined.

Example jpeg_header_decoded :
  base64ToBlob (data_uri (lit "image/jpeg") jpeg_header_base64)
  = inr {| blob_bytes := jpeg_header; blob_type := lit "image/jpeg";
           blob_name := None |}.
Proof. reflexivity. Qed.

(** ** Uploads of captures *)

Section CaptureFacts.

Context {JSValue : Type}.
Variable JSON_parse : jsstring → option JSValue.

Lemma spawn_upload_state env image (st : PageState (JSValue:=JSValue)) :
  let st' := spawn_upload JSON_parse env image st in
  isMobileDevice st' = isMobileDevice st
  ∧ screenshot st' = screenshot st
  ∧ blob_urls st' = blob_urls st
  ∧ next_url st' = next_url st.
Proof. unfold spawn_upload. by destruct (handleImageUpload _ _ _). Qed.

Lemma spawn_upload_trace env image (st : PageState (JSValue:=JSValue)) :
  trace (spawn_upload JSON_parse env image st)
  = trace st ++ (handleImageUpload JSON_parse env image).1
    ++ match (handleImageUpload JSON_parse env image).2 with
       | inl e => [UnhandledRejection e]
       | inr _ => []
       end.
Proof. unfold spawn_upload. by destruct (handleImageUpload _ _ _). Qed.

Lemma base64ToBlob_throws image :
  (match_colon_semicolon (before_first_comma image) = None
   ∨ ∃ e, Base64.atob (default (lit "undefined") (split Chr.comma image !! 1%nat))
          = inl e) →
  ∃ e, base64ToBlob image = inl e.
Proof.
  unfold base64ToBlob. rewrite split_head.
  destruct (Base64.atob _) as [e|byteString]; [by eauto|].
  intros [-> | [e [=]]]. cbn. eauto.
Qed.

(** [base64ToBlob] succeeds exactly when the regular expression
    matches the first part and [atob] accepts the second. *)
Lemma base64ToBlob_succeeds_iff image :
  (∃ blob, base64ToBlob image = inr blob)
  ↔ (∃ mimeString, match_colon_semicolon (before_first_comma image) = Some mimeString)
    ∧ (∃ byteString,
         Base64.atob (default (lit "undefined") (split Chr.comma image !! 1%nat))
         = inr byteString).
Proof.
  unfold base64ToBlob. rewrite split_head.
  destruct (Base64.atob _) as [e|byteString]; cbn.
  - split; [by intros [? ?] | by intros [_ [? ?]]].
  - destruct (match_colon_semicolon _) as [mimeString|]; cbn.
    + split; eauto.
    + split; [by intros [? ?] | by intros [[? ?] _]].
Qed.

(** Only the text up to a second comma is decoded. *)
Example second_comma_is_ignored :
  base64ToBlob (lit "data:image/jpeg;base64,QUJD,***")
  = inr {| blob_bytes := lit "ABC"; blob_type := lit "image/jpeg";
           blob_name := None |}.
Proof. reflexivity. Qed.

(** C2, as stated, fails: the page does not look for the token
    [base64]. A prefix with some other parameter after the [;] does not
    match [data:<mime>;base64,], yet the payload is decoded and the
    image is posted. *)
Lemma pattern_mismatch_is_uploaded :
  let image := lit "data:image/jpeg;foo,QUJD" in
  let env := sample_env (inr {| status := 200; body := inr ok_true_text |}) in
  startsWith image (lit "data:") = true
  ∧ matches_data_uri_pattern (before_first_comma image) = false
  ∧ base64ToBlob image
    = inr {| blob_bytes := lit "ABC"; blob_type := lit "image/jpeg";
             blob_name := None |}
  ∧ length (requests (handleImageUpload parse_sample env (ImageString image)).1)
    = 1%nat.
Proof. repeat split; reflexivity. Qed.

(** C2 (amended). For a string that starts with [data:], if the text
    before the first comma has no [:] followed on the same line by a
    [;], or [atob] rejects the text between the first and the second
    comma (the text ["undefined"] when there is no comma), then
    [base64ToBlob] throws ([InvalidCharacterError] or [TypeError]; there
    is no error of its own for a malformed data URI), the promise of
    [handleImageUpload] rejects before any event, and a capture of that
    string adds only the unhandled rejection to the trace: no request
    is made. *)
Theorem malformed_data_uri_no_upload env image (st : PageState (JSValue:=JSValue)) :
  startsWith image (lit "data:") = true →
  (match_colon_semicolon (before_first_comma image) = None
   ∨ ∃ e, Base64.atob (default (lit "undefined") (split Chr.comma image !! 1%nat))
          = inl e) →
  ∃ e, base64ToBlob image = inl e
       ∧ handleImageUpload JSON_parse env (ImageString image) = ([], inl e)
       ∧ trace (handleCapture JSON_parse env (ImageString image) st)
         = trace st ++ [UnhandledRejection e]
       ∧ requests (trace (handleCapture JSON_parse env (ImageString image) st))
         = requests (trace st).
Proof.
  intros Hdata [e He]%base64ToBlob_throws. exists e.
  assert (Hup : handleImageUpload JSON_parse env (ImageString image) = ([], inl e)).
  { apply handleImageUpload_thrown. cbn [buildFormData]. by rewrite Hdata, He. }
  assert (Htr : trace (handleCapture JSON_parse env (ImageString image) st)
                = trace st ++ [UnhandledRejection e]).
  { cbn [handleCapture]. by rewrite spawn_upload_trace, Hup. }
  repeat split; try done.
  rewrite Htr. unfold requests. rewrite omap_app. cbn. by rewrite app_nil_r.
Qed.

(** C3. For a data URI [data:<mime>;base64,<payload>] whose payload
    [atob] decodes to the bytes [byteString], the form data has the one
    entry [image], a file with exactly those bytes and the name
    [captured.jpg]; if the reply has status 200 and a body that parses
    as JSON to [data], the upload makes the one request and reports
    success with [data]. *)
Theorem data_uri_upload_succeeds env mime payload byteString r t data :
  forallb mime_char mime = true →
  Base64.atob payload = inr byteString →
  let formData :=
    [(lit "image", FDFile {| file_bytes := byteString;
                             file_type := normalize_type mime;
                             file_name := lit "captured.jpg" |})] in
  network env (upload_request env formData) = inr r →
  status r = 200 → body r = inr t → JSON_parse t = Some data →
  buildFormData (ImageString (data_uri mime payload)) = inr formData
  ∧ handleImageUpload JSON_parse env (ImageString (data_uri mime payload))
    = ([Fetch (upload_request env formData);
        ConsoleLog [CStr (lit "Server response:"); CJson data]], inr tt)
  ∧ outcomes (handleImageUpload JSON_parse env (ImageString (data_uri mime payload))).1
    = [Success data].
Proof.
  intros Hm Hp formData Hnet Hst Hb Hj.
  assert (Hfd : buildFormData (ImageString (data_uri mime payload)) = inr formData).
  { cbn [buildFormData]. unfold data_uri at 1. rewrite startsWith_app.
    by rewrite (base64ToBlob_data_uri mime payload byteString). }
  assert (Hup : handleImageUpload JSON_parse env (ImageString (data_uri mime payload))
    = ([Fetch (upload_request env formData);
        ConsoleLog [CStr (lit "Server response:"); CJson data]], inr tt)).
  { rewrite (handleImageUpload_built _ _ _ formData Hfd).
    apply (postFormData_ok _ _ _ r); [done| |].
    - unfold ok. by rewrite Hst.
    - unfold json. rewrite Hb. cbn. by rewrite Hj. }
  by rewrite Hup.
Qed.

(** C4. When the form data of an image is built, the upload makes
    exactly one request, a POST to [/api/upload] on the origin of the
    page, whatever the reply, and its promise resolves; a capture of
    that image adds that one request to those made before. A rejected
    [fetch] is reported as a failure with the error it rejected with, a
    reply that is not 2xx as a failure with the text of its body, and a
    2xx reply whose body is not JSON as a failure with the parse
    error. *)
Theorem upload_posts_once env image formData :
  buildFormData image = inr formData →
  let request := upload_request env formData in
  let tr := (handleImageUpload JSON_parse env image).1 in
  requests tr = [request]
  ∧ (handleImageUpload JSON_parse env image).2 = inr tt
  ∧ (∀ st : PageState (JSValue:=JSValue),
       requests (trace (handleCapture JSON_parse env image st))
       = requests (trace st) ++ [request])
  ∧ req_method request = lit "POST"
  ∧ req_url request = default [] (window_origin env) ++ lit "/api/upload"
  ∧ (∀ e, network env request = inl e → outcomes tr = [Failure (Cause e)])
  ∧ (∀ r t, network env request = inr r → ok r = false → body r = inr t →
            outcomes tr = [Failure (ResponseText (status r) t)])
  ∧ (∀ r t, network env request = inr r → ok r = true → body r = inr t →
            JSON_parse t = None →
            ∃ message, outcomes tr = [Failure (Cause (SyntaxError message))]).
Proof.
  intros Hfd request tr. subst tr.
  assert (Hcap : ∀ st : PageState (JSValue:=JSValue),
            trace (handleCapture JSON_parse env image st)
            = trace st ++ (postFormData JSON_parse env formData).1).
  { intros st. destruct image; cbn [handleCapture createObjectURL];
      rewrite spawn_upload_trace, (handleImageUpload_built _ _ _ formData Hfd);
      destruct (postFormData_one_request JSON_parse env formData) as [_ ->];
      by rewrite app_nil_r. }
  rewrite (handleImageUpload_built _ _ _ formData Hfd).
  split; [apply postFormData_one_request|].
  split; [apply postFormData_one_request|].
  split.
  { intros st. rewrite Hcap. unfold requests at 1. rewrite omap_app.
    f_equal. apply postFormData_one_request. }
  split; [done|].
  split; [unfold request, upload_request, apiEndpoint; cbn;
          by destruct (window_origin env)|].
  repeat split.
  - intros e He. by rewrite (postFormData_rejected _ _ _ e He).
  - intros r t Hr Hok Hb. by rewrite (postFormData_not_ok _ _ _ r t Hr Hok Hb).
  - intros r t Hr Hok Hb Hj. eexists.
    rewrite (postFormData_ok_no_json _ _ _ r (SyntaxError (lit "Unexpected token")));
      [done..|].
    unfold json. rewrite Hb. cbn. by rewrite Hj.
Qed.

(** C8, as stated, fails for a blob that is not a file: the page gives
    [append] no file name for it, and the entry is named [blob], not
    [captured.jpg]. *)
Lemma plain_blob_is_named_blob :
  let b := {| blob_bytes := jpeg_header; blob_type := lit "image/jpeg";
              blob_name := None |} in
  buildFormData (ImageBlob b)
  = inr [(lit "image", FDFile {| file_bytes := jpeg_header;
                                 file_type := lit "image/jpeg";
                                 file_name := lit "blob" |})]
  ∧ lit "blob" ≠ lit "captured.jpg".
Proof. split; [reflexivity | discriminate]. Qed.

(** C8 (amended). For a blob or a file the form data has the one entry
    [image] with the bytes and the type of the blob unchanged; the file
    name is the name of the file, and [blob] for a blob that is not a
    file. ([captured.jpg] is the name given to data URI captures.) *)
Theorem blob_passes_through env b :
  let formData :=
    [(lit "image", FDFile {| file_bytes := blob_bytes b;
                             file_type := blob_type b;
                             file_name := default (lit "blob") (blob_name b) |})] in
  buildFormData (ImageBlob b) = inr formData
  ∧ requests (handleImageUpload JSON_parse env (ImageBlob b)).1
    = [upload_request env formData].
Proof.
  intros formData. split; [reflexivity|].
  rewrite (handleImageUpload_built _ _ _ formData) by reflexivity.
  apply postFormData_one_request.
Qed.

End CaptureFacts.

(** ** The page *)

Lemma matches_here_spec pat s :
  matches_here_ignore_case pat s = true
  ↔ ∃ m post, s = m ++ post ∧ ascii_uppercase <$> m = ascii_uppercase <$> pat.
Proof.
  revert s. induction pat as [|p pat IH]; intros s.
  - split; [|done]. intros _. by exists [], s.
  - destruct s as [|c s]; cbn [matches_here_ignore_case].
    + split; [done|]. intros (m & post & Hs & Hm).
      symmetry in Hs. apply app_eq_nil in Hs as [-> _]. done.
    + rewrite andb_true_iff, N.eqb_eq, IH. split.
      * intros [Hc (m & post & -> & Hm)]. exists (c :: m), post.
        split; [done|]. cbn. by rewrite Hc, Hm.
      * intros (m & post & Hs & Hm). destruct m as [|c' m]; [done|].
        cbn in Hs, Hm. simplify_eq. split; [done|]. by exists m, post.
Qed.

(** The test of the regular expression is a search for a substring
    that equals one of the alternatives up to the case of ASCII
    letters. *)
Lemma test_ignore_case_spec alternatives s :
  test_ignore_case alternatives s = true
  ↔ ∃ pre m post pat,
      pat ∈ alternatives ∧ s = pre ++ m ++ post
      ∧ ascii_uppercase <$> m = ascii_uppercase <$> pat.
Proof.
  induction s as [|c s IH]; cbn [test_ignore_case];
    rewrite orb_true_iff, existsb_exists.
  - split.
    + intros [(pat & Hin & (m & post & Hs & Hm)%matches_here_spec) | ?]; [|done].
      exists [], m, post, pat. by rewrite list_elem_of_In.
    + intros (pre & m & post & pat & Hin & Hs & Hm). left.
      exists pat. rewrite <- list_elem_of_In. split; [done|].
      apply matches_here_spec. exists m, post. split; [|done].
      destruct pre; [done | discriminate].
  - rewrite IH. split.
    + intros [(pat & Hin & (m & post & Hs & Hm)%matches_here_spec)
             | (pre & m & post & pat & Hin & -> & Hm)].
      * exists [], m, post, pat. by rewrite list_elem_of_In.
      * by exists (c :: pre), m, post, pat.
    + intros (pre & m & post & pat & Hin & Hs & Hm).
      destruct pre as [|c' pre].
      * left. exists pat. rewrite <- list_elem_of_In. split; [done|].
        apply matches_here_spec. by exists m, post.
      * right. cbn in Hs. simplify_eq. by exists pre, m, post, pat.
Qed.

Section PageFacts.

Context {JSValue : Type}.
Variable JSON_parse : jsstring → option JSValue.

Lemma handleCapture_state env data (st : PageState (JSValue:=JSValue)) :
  let st' := handleCapture JSON_parse env data st in
  isMobileDevice st' = isMobileDevice st
  ∧ match data with
    | ImageString s =>
        screenshot st' = Some s ∧ blob_urls st' = blob_urls st
        ∧ next_url st' = next_url st
    | ImageBlob b =>
        screenshot st' = Some (object_url (next_url st))
        ∧ blob_urls st' = <[next_url st := b]> (blob_urls st)
        ∧ next_url st' = next_url st + 1
    end.
Proof.
  destruct data as [s|b]; cbn [handleCapture createObjectURL];
    match goal with
    | |- context [spawn_upload _ ?env ?img ?s] =>
        destruct (spawn_upload_state JSON_parse env img s) as (-> & -> & -> & ->)
    end; done.
Qed.

Lemma handleCapture_trace env data (st : PageState (JSValue:=JSValue)) :
  trace (handleCapture JSON_parse env data st)
  = trace st ++ (handleImageUpload JSON_parse env data).1
    ++ match (handleImageUpload JSON_parse env data).2 with
       | inl e => [UnhandledRejection e]
       | inr _ => []
       end.
Proof.
  destruct data as [s|b]; cbn [handleCapture createObjectURL];
    by rewrite spawn_upload_trace.
Qed.

Lemma handleMobileFile_state env file (st : PageState (JSValue:=JSValue)) :
  let st' := handleMobileFile JSON_parse env file st in
  isMobileDevice st' = isMobileDevice st
  ∧ match file with
    | Some b =>
        screenshot st' = Some (object_url (next_url st))
        ∧ blob_urls st' = <[next_url st := b]> (blob_urls st)
        ∧ next_url st' = next_url st + 1
    | None => st' = st
    end.
Proof.
  destruct file as [b|]; [|done]. cbn [handleMobileFile createObjectURL].
  match goal with
  | |- context [spawn_upload _ ?env ?img ?s] =>
      destruct (spawn_upload_state JSON_parse env img s) as (-> & -> & -> & ->)
  end; done.
Qed.

Lemma handle_isMobileDevice (st : PageState (JSValue:=JSValue)) ev :
  isMobileDevice (handle JSON_parse st ev) = isMobileDevice st.
Proof.
  destruct ev as [env data | env file]; cbn [handle].
  - apply handleCapture_state.
  - apply handleMobileFile_state.
Qed.

Lemma run_isMobileDevice (st : PageState (JSValue:=JSValue)) evs :
  isMobileDevice (run JSON_parse st evs) = isMobileDevice st.
Proof.
  revert st. induction evs as [|ev evs IH]; intros st; [done|].
  cbn [run foldl]. fold (run JSON_parse (handle JSON_parse st ev) evs).
  by rewrite IH, handle_isMobileDevice.
Qed.

Lemma object_url_nonempty id : object_url id ≠ [].
Proof. done. Qed.

(** C9. The capture mode is [null] at first, and then only the loading
    view is rendered, with no capture widget. The effect that runs once
    after the first render sets it to whether the user agent string has
    one of [iPhone], [iPad], [iPod], [Android] as a substring, up to the
    case of letters. No handler writes it: after every run of captures
    it has that same value, so it is never [null] again, and the view
    has the mobile widgets exactly if it is [true]. *)
Theorem capture_mode_is_detected_once userAgent evs :
  let mobile := test_ignore_case mobile_patterns (default [] userAgent) in
  let st := run JSON_parse (detect_device userAgent initial) evs in
  isMobileDevice (initial (JSValue:=JSValue)) = None
  ∧ (∀ st' : PageState (JSValue:=JSValue),
       isMobileDevice st' = None ↔ render st' = LoadingCamera)
  ∧ isMobileDevice st = Some mobile
  ∧ (∃ captured,
       render st = Main (if mobile then MobileCameraAndFileInput
                         else DesktopCameraWidget) captured)
  ∧ (mobile = true
     ↔ ∃ pre m post pat,
         pat ∈ mobile_patterns ∧ default [] userAgent = pre ++ m ++ post
         ∧ ascii_uppercase <$> m = ascii_uppercase <$> pat).
Proof.
  intros mobile st.
  assert (Hst : isMobileDevice st = Some mobile)
    by (unfold st; by rewrite run_isMobileDevice).
  split; [done|]. split.
  { intros st'. unfold render. by destruct (isMobileDevice st'). }
  split; [done|]. split.
  - unfold render. rewrite Hst. eauto.
  - apply test_ignore_case_spec.
Qed.

(** C7. A capture stores its preview whatever the upload does: the
    data URI itself, or a new object URL for a blob. The stored preview
    does not depend on the network, and the capture mode is unchanged.
    If the reply is not 2xx and its body reads [t], the failure is
    reported with [t], next to that same preview; with the capture mode
    known and the preview not the empty string, the view shows it. *)
Theorem preview_is_independent_of_upload env data (st : PageState (JSValue:=JSValue)) :
  let preview := match data with
                 | ImageString s => s
                 | ImageBlob _ => object_url (next_url st)
                 end in
  let st' := handleCapture JSON_parse env data st in
  screenshot st' = Some preview
  ∧ (∀ env', screenshot (handleCapture JSON_parse env' data st) = Some preview)
  ∧ (∀ mobile, isMobileDevice st = Some mobile → preview ≠ [] →
       render st' = Main (if mobile then MobileCameraAndFileInput
                          else DesktopCameraWidget) (Some preview))
  ∧ (∀ formData r t,
       buildFormData data = inr formData →
       network env (upload_request env formData) = inr r →
       ok r = false → body r = inr t →
       outcomes (trace st')
       = outcomes (trace st) ++ [Failure (ResponseText (status r) t)]).
Proof.
  intros preview st'.
  assert (Hshot : ∀ env', screenshot (handleCapture JSON_parse env' data st)
                          = Some preview).
  { intros env'. destruct (handleCapture_state env' data st) as [_ H].
    destruct data; apply H. }
  split; [apply Hshot|]. split; [apply Hshot|]. split.
  - intros mobile Hm Hne. unfold render, st'.
    destruct (handleCapture_state env data st) as [-> _].
    rewrite Hm, Hshot. by destruct preview.
  - intros formData r t Hfd Hnet Hok Hb. unfold st'.
    rewrite handleCapture_trace, (handleImageUpload_built _ _ _ formData Hfd),
      (postFormData_not_ok _ _ _ r t Hnet Hok Hb).
    unfold outcomes. by rewrite omap_app.
Qed.

(** C6 (amended). A capture replaces the stored preview by the new one
    (the data URI itself, or an object URL made for the blob or file),
    and releases nothing: the page never revokes an object URL, so every
    preview reference that could be resolved before the capture can be
    resolved after it. *)
Theorem previews_are_never_released (st : PageState (JSValue:=JSValue)) ev :
  let st' := handle JSON_parse st ev in
  (∀ ref, resolvable st ref → resolvable st' ref)
  ∧ match ev with
    | Capture _ (ImageString s) =>
        screenshot st' = Some s ∧ blob_urls st' = blob_urls st
    | Capture _ (ImageBlob b) | MobileFileChange _ (Some b) =>
        screenshot st' = Some (object_url (next_url st))
        ∧ blob_urls st' = <[next_url st := b]> (blob_urls st)
        ∧ resolvable st' (object_url (next_url st))
    | MobileFileChange _ None => st' = st
    end.
Proof.
  intros st'.
  assert (Hkeep : ∀ b ref, blob_urls st' = <[next_url st := b]> (blob_urls st) →
                           resolvable st ref → resolvable st' ref).
  { intros b ref Hurls [Hdata | (id & -> & Hid)]; [by left | right].
    exists id. split; [done|]. rewrite Hurls, lookup_insert.
    by case_decide. }
  assert (Hnew : ∀ b, blob_urls st' = <[next_url st := b]> (blob_urls st) →
                      resolvable st' (object_url (next_url st))).
  { intros b Hurls. right. exists (next_url st). split; [done|].
    by rewrite Hurls, lookup_insert_eq. }
  unfold st' in *. destruct ev as [env [s|b] | env [b|]]; cbn [handle] in *.
  - destruct (handleCapture_state env (ImageString s) st) as (_ & Hs & Hu & _).
    split; [|done]. intros ref [Hdata | (id & -> & Hid)]; [by left | right].
    exists id. by rewrite Hu.
  - destruct (handleCapture_state env (ImageBlob b) st) as (_ & Hs & Hu & _).
    eauto 6.
  - destruct (handleMobileFile_state env (Some b) st) as (_ & Hs & Hu & _).
    eauto 6.
  - done.
Qed.

End PageFacts.

(** C6, as stated, fails: after two file captures the object URL of the
    first is still in the blob URL store, next to that of the second;
    two preview references can be resolved, not one. *)
Lemma first_preview_is_not_released :
  let env := sample_env (inr {| status := 200; body := inr ok_true_text |}) in
  let file1 := {| blob_bytes := jpeg_header; blob_type := lit "image/jpeg";
                  blob_name := Some (lit "fridge1.jpg") |} in
  let file2 := {| blob_bytes := lit "ABC"; blob_type := lit "image/png";
                  blob_name := Some (lit "fridge2.png") |} in
  let st0 := detect_device (Some (lit "Android")) initial in
  let st1 := handleMobileFile parse_sample env (Some file1) st0 in
  let st2 := handleMobileFile parse_sample env (Some file2) st1 in
  screenshot st1 = Some (lit "blob:0")
  ∧ screenshot st2 = Some (lit "blob:1")
  ∧ blob_urls st2 !! 0 = Some file1
  ∧ blob_urls st2 !! 1 = Some file2
  ∧ resolvable st2 (lit "blob:0")
  ∧ resolvable st2 (lit "blob:1").
Proof.
  intros env file1 file2 st0 st1 st2.
  assert (H1 : screenshot st1 = Some (lit "blob:0")) by reflexivity.
  assert (H2 : screenshot st2 = Some (lit "blob:1")) by reflexivity.
  assert (H3 : blob_urls st2 !! 0 = Some file1) by reflexivity.
  assert (H4 : blob_urls st2 !! 1 = Some file2) by reflexivity.
  repeat split; try done.
  - right. exists 0. split; [reflexivity|]. by rewrite H3.
  - right. exists 1. split; [reflexivity|]. by rewrite H4.
Qed.

(** ** The scenarios of the specification *)

(** The malformed data URI of the specification: no request. *)
Lemma malformed_data_uri_no_upload_witness :
  let image := lit "data:image/jpeg;base64,***invalid***" in
  let env := sample_env (inr {| status := 200; body := inr ok_true_text |}) in
  let st : PageState (JSValue:=Json) := initial in
  startsWith image (lit "data:") = true
  ∧ Base64.atob (default (lit "undefined") (split Chr.comma image !! 1%nat))
    = inl InvalidCharacterError
  ∧ ∃ e, base64ToBlob image = inl e
         ∧ handleImageUpload parse_sample env (ImageString image) = ([], inl e)
         ∧ trace (handleCapture parse_sample env (ImageString image) st)
           = trace st ++ [UnhandledRejection e]
         ∧ requests (trace (handleCapture parse_sample env (ImageString image) st))
           = requests (trace st).
Proof.
  intros image env st. split; [reflexivity|]. split; [reflexivity|].
  apply (malformed_data_uri_no_upload parse_sample env image st);
    [reflexivity | right; eexists; reflexivity].
Defined.

(** A ten-byte capture, a reply 200 with the body [{"ok":true}]. *)
Lemma data_uri_upload_succeeds_witness :
  let reply := {| status := 200; body := inr ok_true_text |} in
  let env := sample_env (inr reply) in
  let image := ImageString (data_uri (lit "image/jpeg") jpeg_header_base64) in
  let formData :=
    [(lit "image", FDFile {| file_bytes := jpeg_header;
                             file_type := lit "image/jpeg";
                             file_name := lit "captured.jpg" |})] in
  Base64.atob jpeg_header_base64 = inr jpeg_header
  ∧ length jpeg_header = 10%nat
  ∧ parse_sample ok_true_text = Some (JObject (lit "ok") JTrue)
  ∧ buildFormData image = inr formData
  ∧ handleImageUpload parse_sample env image
    = ([Fetch (upload_request env formData);
        ConsoleLog [CStr (lit "Server response:");
                    CJson (JObject (lit "ok") JTrue)]], inr tt)
  ∧ outcomes (handleImageUpload parse_sample env image).1
    = [Success (JObject (lit "ok") JTrue)].
Proof.
  intros reply env image formData.
  split; [reflexivity|]. split; [reflexivity|]. split; [reflexivity|].
  apply (data_uri_upload_succeeds parse_sample env (lit "image/jpeg")
           jpeg_header_base64 jpeg_header reply ok_true_text
           (JObject (lit "ok") JTrue)); reflexivity.
Defined.

(** A file, a reply 500 with the body [server error]: one request, a
    failure with that text. *)
Lemma upload_posts_once_witness :
  let reply := {| status := 500; body := inr (lit "server error") |} in
  let env := sample_env (inr reply) in
  let file := {| blob_bytes := jpeg_header; blob_type := lit "image/jpeg";
                 blob_name := Some (lit "fridge.jpg") |} in
  let formData :=
    [(lit "image", FDFile {| file_bytes := jpeg_header;
                             file_type := lit "image/jpeg";
                             file_name := lit "fridge.jpg" |})] in
  let tr := (handleImageUpload parse_sample env (ImageBlob file)).1 in
  buildFormData (ImageBlob file) = inr formData
  ∧ requests tr
    = [{| req_url := lit "https://fridge.example/api/upload";
          req_method := lit "POST"; req_body := formData |}]
  ∧ outcomes tr = [Failure (ResponseText 500 (lit "server error"))].
Proof.
  intros reply env file formData tr.
  destruct (upload_posts_once parse_sample env (ImageBlob file) formData eq_refl)
    as (Hone & _ & _ & _ & _ & _ & Hfail & _).
  split; [reflexivity|]. split; [exact Hone|].
  apply (Hfail reply (lit "server error")); reflexivity.
Defined.

(** A capture on a desktop, a reply 500 with the body [server error]:
    the failure is reported and the preview is shown. *)
Lemma preview_is_independent_of_upload_witness :
  let reply := {| status := 500; body := inr (lit "server error") |} in
  let env := sample_env (inr reply) in
  let image := data_uri (lit "image/jpeg") jpeg_header_base64 in
  let st := detect_device (Some (lit "Mozilla/5.0 (X11; Linux x86_64)")) initial in
  let st' := handleCapture parse_sample env (ImageString image) st in
  screenshot st' = Some image
  ∧ render st' = Main DesktopCameraWidget (Some image)
  ∧ outcomes (trace st') = [Failure (ResponseText 500 (lit "server error"))].
Proof.
  intros reply env image st st'.
  destruct (preview_is_independent_of_upload parse_sample env (ImageString image) st)
    as (Hshot & _ & Hview & Hfail).
  split; [exact Hshot|]. split.
  - apply (Hview false); [reflexivity | discriminate].
  - apply (Hfail [(lit "image", FDFile {| file_bytes := jpeg_header;
                                          file_type := lit "image/jpeg";
                                          file_name := lit "captured.jpg" |})]
             reply (lit "server error")); reflexivity.
Defined.

(** ** MobileCamera *)

Module CameraFacts.
Import MobileCamera.
Local Open Scope nat_scope.

(** C10. [toggleCamera] exchanges [environment] and [user]: it changes
    every facing mode, and twice it is the identity. *)
Theorem toggleCamera_involutive facing :
  toggleCamera environment = user
  ∧ toggleCamera user = environment
  ∧ toggleCamera facing ≠ facing
  ∧ toggleCamera (toggleCamera facing) = facing.
Proof. by destruct facing. Qed.

(** The cleanup does release the stream of the latest run when that run
    has its stream: after the button every track of it is ended, and
    the next [getUserMedia] call is pending with the other facing mode. *)
Lemma switch_after_grant_stops_tracks st s facing tracks :
  mounted st = true →
  last (activeStream st) = Some (Some s) →
  streams st !! s = Some (facing, tracks) →
  let st' := step st SwitchCamera in
  streams st' !! s = Some (facing, (λ _, ended) <$> tracks)
  ∧ facingMode st' = toggleCamera (facingMode st)
  ∧ pending st' = pending st ++ [(length (activeStream st), toggleCamera (facingMode st))].
Proof.
  intros Hm Hlast Hs. cbn [step]. rewrite Hm. unfold cleanup. rewrite Hlast.
  cbn. split; [|done]. by rewrite list_lookup_alter_eq, Hs.
Qed.

Lemma is_live_stopped (f : FacingMode) (ts : list ReadyState) :
  is_live (f, (λ _, ended) <$> ts) = false.
Proof. unfold is_live. cbn. by induction ts. Qed.

Lemma cleanup_fields st :
  facingMode (cleanup st) = facingMode st
  ∧ mounted (cleanup st) = mounted st
  ∧ activeStream (cleanup st) = activeStream st
  ∧ pending (cleanup st) = pending st
  ∧ stream (cleanup st) = stream st
  ∧ srcObject (cleanup st) = srcObject st.
Proof. unfold cleanup. by repeat case_match. Qed.

Lemma cleanup_no_live st :
  (∀ s x, streams st !! s = Some x → is_live x = true →
          last (activeStream st) = Some (Some s)) →
  no_live (cleanup st).
Proof.
  intros Hlive. unfold no_live, cleanup. apply Forall_lookup. intros i x.
  destruct (last (activeStream st)) as [[s|]|] eqn:Hlast; cbn.
  - rewrite list_lookup_alter. case_decide as Hi.
    + subst i. destruct (streams st !! s) as [[f ts]|]; [|done].
      intros [= <-]. apply is_live_stopped.
    + intros Hx. destruct (is_live x) eqn:Hl; [|done].
      specialize (Hlive i x Hx Hl). congruence.
  - intros Hx. destruct (is_live x) eqn:Hl; [|done].
    specialize (Hlive i x Hx Hl). congruence.
  - intros Hx. destruct (is_live x) eqn:Hl; [|done].
    specialize (Hlive i x Hx Hl). congruence.
Qed.

Lemma no_live_lookup st s x :
  no_live st → streams st !! s = Some x → is_live x = true → False.
Proof.
  intros Hno Hx Hl. eapply Forall_lookup_1 in Hno; [|exact Hx]. congruence.
Qed.

Lemma is_pending_elem r st f : is_pending r st = Some f → (r, f) ∈ pending st.
Proof.
  unfold is_pending. destruct (list_find _ _) as [[i [r' f']]|] eqn:Hfind; [|done].
  intros [= <-]. apply list_find_Some in Hfind as (Hi & Hr & _). cbn in Hr. subst.
  eapply list_elem_of_lookup_2, Hi.
Qed.

Lemma settle_elem r st r' f :
  (r', f) ∈ settle r st → (r', f) ∈ pending st ∧ r' ≠ r.
Proof. unfold settle. rewrite list_elem_of_filter. cbn. tauto. Qed.

Lemma invariant_step st ev :
  invariant st →
  (ev = SwitchCamera ∨ ev = Unmount → pending st = []) →
  invariant (step st ev).
Proof.
  intros Hinv Hpatient. pose proof Hinv as (Hpend & Hlive & Hunm).
  destruct ev as [| |r|r|]; cbn [step].
  - (* Mount *)
    destruct (mounted st) eqn:Hm; [done|].
    destruct (Hunm eq_refl) as [Hp Hno].
    unfold run_effect. cbn. rewrite Hp.
    split; [|split]; cbn.
    + intros r f [= -> ->]%list_elem_of_singleton. rewrite length_app, last_snoc.
      cbn. split; [lia | done].
    + intros s x Hx Hl. by destruct (no_live_lookup st s x).
    + done.
  - (* SwitchCamera *)
    destruct (mounted st) eqn:Hm; [|done].
    specialize (Hpatient (or_introl eq_refl)).
    pose proof (cleanup_no_live st Hlive) as Hno.
    destruct (cleanup_fields st) as (Hf & Hm' & Ha & Hp & _).
    unfold run_effect. cbn. rewrite Ha, Hp, Hpatient.
    split; [|split]; cbn.
    + intros r f [= -> ->]%list_elem_of_singleton. rewrite length_app, last_snoc.
      cbn. split; [lia | done].
    + intros s x Hx Hl. by destruct (no_live_lookup (cleanup st) s x).
    + congruence.
  - (* Granted *)
    destruct (is_pending r st) as [facing|] eqn:Hr; [|done].
    apply is_pending_elem in Hr. destruct (Hpend r facing Hr) as [Hlen Hlast].
    assert (Hno : no_live st).
    { apply Forall_lookup. intros s x Hx. destruct (is_live x) eqn:Hl; [|done].
      specialize (Hlive s x Hx Hl). congruence. }
    assert (Hm : mounted st = true).
    { destruct (mounted st) eqn:Hm; [done|]. destruct (Hunm eq_refl) as [Hp _].
      rewrite Hp in Hr. by apply elem_of_nil in Hr. }
    split; [|split]; cbn.
    + intros r' f [Hin Hne]%settle_elem. destruct (Hpend r' f Hin). lia.
    + intros s x Hx Hl. rewrite last_lookup, length_insert, <- Hlen. cbn.
      rewrite list_lookup_insert_eq by lia.
      apply lookup_app_Some in Hx as [Hx | [Hge Hx]].
      * by destruct (no_live_lookup st s x).
      * apply list_lookup_singleton_Some in Hx as [Hs _].
        do 2 f_equal. lia.
    + congruence.
  - (* Denied *)
    destruct (is_pending r st) as [facing|] eqn:Hr; [|done].
    apply is_pending_elem in Hr. destruct (Hpend r facing Hr) as [Hlen Hlast].
    assert (Hm : mounted st = true).
    { destruct (mounted st) eqn:Hm; [done|]. destruct (Hunm eq_refl) as [Hp _].
      rewrite Hp in Hr. by apply elem_of_nil in Hr. }
    split; [|split]; cbn.
    + intros r' f [Hin Hne]%settle_elem. destruct (Hpend r' f Hin). lia.
    + apply Hlive.
    + congruence.
  - (* Unmount *)
    destruct (mounted st) eqn:Hm; [|done].
    specialize (Hpatient (or_intror eq_refl)).
    pose proof (cleanup_no_live st Hlive) as Hno.
    destruct (cleanup_fields st) as (Hf & Hm' & Ha & Hp & _).
    split; [|split]; cbn.
    + intros r f Hin. rewrite Hp, Hpatient in Hin. by apply elem_of_nil in Hin.
    + intros s x Hx Hl. by destruct (no_live_lookup (cleanup st) s x).
    + intros _. by rewrite Hp.
Qed.

Lemma patient_invariant st : patient st → invariant st.
Proof.
  induction 1 as [|st ev _ IH Hp].
  - split; [|split]; cbn.
    + intros r f Hin. by apply elem_of_nil in Hin.
    + done.
    + intros _. split; [done | constructor].
  - by apply invariant_step.
Qed.

Lemma filter_at_most_one {A} (P : A → bool) (l : list A) :
  (∀ i j x y, l !! i = Some x → l !! j = Some y →
              P x = true → P y = true → i = j) →
  length (List.filter P l) ≤ 1.
Proof.
  induction l as [|a l IH]; intros Huniq; cbn; [lia|].
  assert (IHl : length (List.filter P l) ≤ 1).
  { apply IH. intros i j x y Hi Hj Hx Hy.
    specialize (Huniq (S i) (S j) x y Hi Hj Hx Hy). lia. }
  destruct (P a) eqn:Ha; [|done]. cbn.
  destruct (List.filter P l) as [|b l'] eqn:Hfl; [cbn; lia|].
  assert (Hb : In b (List.filter P l)) by (rewrite Hfl; by left).
  apply filter_In in Hb as [Hin Hb].
  apply list_elem_of_In, list_elem_of_lookup in Hin as [j Hj].
  specialize (Huniq 0 (S j) a b eq_refl Hj Ha Hb). lia.
Qed.

(** For a patient user the claim of C5 holds: never two live streams. *)
Lemma patient_at_most_one_stream st :
  patient st → length (live_streams st) ≤ 1.
Proof.
  intros (_ & Hlive & _)%patient_invariant. apply filter_at_most_one.
  intros i j x y Hi Hj Hx Hy.
  pose proof (Hlive i x Hi Hx). pose proof (Hlive j y Hj Hy). congruence.
Qed.

(** When the button comes after the grant there is one live stream
    again once the second call is granted. *)
Example switch_after_grant :
  live_streams (run [Mount; Granted 0; SwitchCamera]) = []
  ∧ live_streams (run [Mount; Granted 0; SwitchCamera; Granted 1])
    = [(user, [live])].
Proof. split; reflexivity. Qed.

(** C5 fails on the code. The button is pressed while the first
    [getUserMedia] call is still pending: the cleanup of the first run
    finds its [activeStream] still [null] and stops nothing; when the
    two calls are granted, two streams are live, one per facing mode.
    No cleanup will ever see the first one: it is still live after the
    component is unmounted. *)
Theorem switch_before_grant_leaves_two_streams :
  let st := run [Mount; SwitchCamera; Granted 0; Granted 1] in
  live_streams (run [Mount; SwitchCamera]) = []
  ∧ live_streams (run [Mount; SwitchCamera; Granted 0]) = [(environment, [live])]
  ∧ live_streams st = [(environment, [live]); (user, [live])]
  ∧ length (live_streams st) = 2
  ∧ live_streams (step st Unmount) = [(environment, [live])].
Proof. repeat split; reflexivity. Qed.

End CameraFacts.

(** * Further properties *)

(** ** Decoding what an encoder wrote *)

Module EncodeFacts.
Import Base64 Base64Facts.

Lemma list_ind3 {A} (P : list A → Prop) :
  P [] → (∀ a, P [a]) → (∀ a b, P [a; b]) →
  (∀ a b c l, P l → P (a :: b :: c :: l)) →
  ∀ l, P l.
Proof.
  intros H0 H1 H2 H3. fix IH 1.
  intros [|a [|b [|c l]]]; [apply H0 | apply H1 | apply H2 | apply H3, IH].
Qed.

(** Three bytes: four sextets and back. *)
Lemma bytes3_sextets x y z :
  x < 256 → y < 256 → z < 256 →
  let n := x * 65536 + y * 256 + z in
  let v1 := n / 262144 in let v2 := (n / 4096) mod 64 in
  let v3 := (n / 64) mod 64 in let v4 := n mod 64 in
  let m := v1 * 262144 + v2 * 4096 + v3 * 64 + v4 in
  (v1 < 64 ∧ v2 < 64 ∧ v3 < 64 ∧ v4 < 64)
  ∧ m / 65536 = x ∧ (m / 256) mod 256 = y ∧ m mod 256 = z.
Proof.
  intros Hx Hy Hz n v1 v2 v3 v4 m.
  assert (Hm : m = n) by (subst n v1 v2 v3 v4 m; divmod).
  rewrite Hm. subst n v1 v2 v3 v4. repeat split; divmod.
Qed.

Lemma bytes2_sextets x y :
  x < 256 → y < 256 →
  let n := (x * 256 + y) * 4 in
  let v1 := n / 4096 in let v2 := (n / 64) mod 64 in let v3 := n mod 64 in
  let m := (v1 * 4096 + v2 * 64 + v3) / 4 in
  (v1 < 64 ∧ v2 < 64 ∧ v3 < 64 ∧ v3 mod 4 = 0)
  ∧ m / 256 = x ∧ m mod 256 = y.
Proof.
  intros Hx Hy n v1 v2 v3 m.
  assert (Hm : m = x * 256 + y) by (subst n v1 v2 v3 m; divmod).
  rewrite Hm. subst n v1 v2 v3. repeat split; divmod.
Qed.

Lemma bytes1_sextets x :
  x < 256 →
  let n := x * 16 in
  let v1 := n / 64 in let v2 := n mod 64 in
  (v1 < 64 ∧ v2 < 64 ∧ v2 mod 16 = 0) ∧ (v1 * 64 + v2) / 16 = x.
Proof. intros Hx n v1 v2. subst n v1 v2. repeat split; divmod. Qed.

Lemma char_alphabet v : v < 64 → is_alphabet (char v) = true.
Proof. intros Hv. unfold is_alphabet. by rewrite value_char. Qed.

Lemma char_not_equals v : v < 64 → (char v =? Chr.equals) = false.
Proof.
  intros Hv. apply N.eqb_neq. eapply value_not_equals. by apply value_char.
Qed.

Lemma btoa_cons x bs : ∃ c s, btoa (x :: bs) = c :: s.
Proof. destruct bs as [|y [|z bs]]; cbn [btoa]; eauto. Qed.

(** The encoder writes canonical text. *)
Lemma btoa_canonical bs :
  Forall (λ x, x < 256) bs → canonical (btoa bs) = true.
Proof.
  induction bs as [|x|x y|x y z bs IH] using list_ind3; intros H.
  - done.
  - apply Forall_cons in H as [Hx _].
    destruct (bytes1_sextets x Hx) as [(H1 & H2 & H0) _].
    cbn [btoa canonical]. rewrite !N.eqb_refl.
    rewrite char_alphabet by done. unfold low_bits_zero.
    rewrite value_char by done. by apply N.eqb_eq.
  - apply Forall_cons in H as [Hx [Hy _]%Forall_cons].
    destruct (bytes2_sextets x y Hx Hy) as [(H1 & H2 & H3 & H0) _].
    cbn [btoa canonical]. rewrite N.eqb_refl, char_not_equals by done.
    rewrite !char_alphabet by done. unfold low_bits_zero.
    rewrite value_char by done. by apply N.eqb_eq.
  - apply Forall_cons in H as [Hx [Hy [Hz Hbs]%Forall_cons]%Forall_cons].
    destruct (bytes3_sextets x y z Hx Hy Hz) as [(H1 & H2 & H3 & H4) _].
    specialize (IH Hbs).
    change (btoa (x :: y :: z :: bs))
      with (let n := x * 65536 + y * 256 + z in
            char (n / 262144) :: char ((n / 4096) mod 64)
              :: char ((n / 64) mod 64) :: char (n mod 64) :: btoa bs).
    cbv zeta. destruct bs as [|w bs].
    + cbn [btoa canonical]. rewrite char_not_equals by done.
      by rewrite !char_alphabet.
    + destruct (btoa_cons w bs) as (c & s & Hs). rewrite Hs in *.
      match goal with
      | |- canonical (?a :: ?b :: ?c' :: ?d :: c :: s) = true =>
          change (canonical (a :: b :: c' :: d :: c :: s))
            with (is_alphabet a && is_alphabet b && is_alphabet c'
                  && is_alphabet d && canonical (c :: s))
      end.
      rewrite !char_alphabet by done. by rewrite IH.
Qed.

(** The sextets of the text of a byte sequence decode to that sequence. *)
Lemma btoa_decode bs :
  Forall (λ x, x < 256) bs →
  ∃ vs, values (strip_padding (btoa bs)) = Some vs ∧ decode_sextets vs = bs.
Proof.
  induction bs as [|x|x y|x y z bs IH] using list_ind3; intros H.
  - by exists [].
  - apply Forall_cons in H as [Hx _].
    destruct (bytes1_sextets x Hx) as [(H1 & H2 & H0) Hb].
    eexists [_; _]. cbn [btoa].
    rewrite !strip_padding_cons
      by (eapply value_not_equals; by apply value_char).
    cbn [strip_padding values]. rewrite N.eqb_refl. cbn [andb values].
    rewrite !value_char by done. split; [done|].
    cbn [decode_sextets]. by rewrite Hb.
  - apply Forall_cons in H as [Hx [Hy _]%Forall_cons].
    destruct (bytes2_sextets x y Hx Hy) as [(H1 & H2 & H3 & H0) [Hb1 Hb2]].
    eexists [_; _; _]. cbn [btoa].
    rewrite !strip_padding_cons
      by (eapply value_not_equals; by apply value_char).
    cbn [strip_padding values]. rewrite N.eqb_refl. cbn [andb values].
    rewrite !value_char by done. split; [done|].
    cbn [decode_sextets]. by rewrite Hb1, Hb2.
  - apply Forall_cons in H as [Hx [Hy [Hz Hbs]%Forall_cons]%Forall_cons].
    destruct (bytes3_sextets x y z Hx Hy Hz)
      as [(H1 & H2 & H3 & H4) (Hb1 & Hb2 & Hb3)].
    destruct (IH Hbs) as (vs & Hvs & Hdec).
    change (btoa (x :: y :: z :: bs))
      with (let n := x * 65536 + y * 256 + z in
            char (n / 262144) :: char ((n / 4096) mod 64)
              :: char ((n / 64) mod 64) :: char (n mod 64) :: btoa bs).
    cbv zeta. eexists (_ :: _ :: _ :: _ :: vs).
    rewrite !strip_padding_cons
      by (eapply value_not_equals; by apply value_char).
    cbn [values]. rewrite !value_char by done. rewrite Hvs. split; [done|].
    cbn [decode_sextets]. by rewrite Hb1, Hb2, Hb3, Hdec.
Qed.

(** [atob] undoes the encoder. *)
Lemma atob_btoa bs : Forall (λ x, x < 256) bs → atob (btoa bs) = inr bs.
Proof.
  intros Hbs. pose proof (btoa_canonical bs Hbs) as Hc.
  destruct (canonical_shape _ Hc) as [HF Hlen].
  destruct (canonical_decode _ Hc) as (vs' & Hvs' & Hne & _).
  destruct (btoa_decode bs Hbs) as (vs & Hvs & Hdec).
  unfold atob. rewrite remove_whitespace_id.
  - rewrite Hlen. cbn [N.eqb].
    destruct (N.eqb_spec (N.of_nat (length (strip_padding (btoa bs))) mod 4) 1);
      [done|].
    by rewrite Hvs, Hdec.
  - eapply Forall_impl; [exact HF|]. intros c [[v Hv]%alphabet_value | ->].
    + by eapply value_not_whitespace.
    + apply equals_not_whitespace.
Qed.

End EncodeFacts.

(** X1. [base64ToBlob] undoes the encoder: of the data URI
    [data:<mime>;base64,<btoa bytes>] it makes a blob with exactly
    [bytes], for every sequence of bytes, the empty one too. *)
Theorem base64ToBlob_of_encoded mime bytes :
  forallb mime_char mime = true →
  Forall (λ x, x < 256) bytes →
  base64ToBlob (data_uri mime (Base64.btoa bytes))
  = inr {| blob_bytes := bytes; blob_type := normalize_type mime;
           blob_name := None |}.
Proof.
  intros Hm Hb.
  by rewrite (base64ToBlob_data_uri mime _ bytes Hm (EncodeFacts.atob_btoa bytes Hb)).
Qed.

Lemma base64ToBlob_of_encoded_witness :
  forallb mime_char (lit "image/png") = true
  ∧ Forall (λ x, x < 256) [137; 80; 78; 71; 13]
  ∧ base64ToBlob (data_uri (lit "image/png") (Base64.btoa [137; 80; 78; 71; 13]))
    = inr {| blob_bytes := [137; 80; 78; 71; 13];
             blob_type := normalize_type (lit "image/png");
             blob_name := None |}.
Proof.
  split; [reflexivity|]. split; [repeat constructor|].
  apply (base64ToBlob_of_encoded (lit "image/png") [137; 80; 78; 71; 13]);
    [reflexivity | repeat constructor].
Defined.

(** ** Edges of [base64ToBlob] *)

(** X2. A text without a comma has no second part; [atob] is given
    [undefined], reads it as the text of that name, and throws: the
    error is [InvalidCharacterError] whatever the text is, the empty
    text included. *)
Theorem base64ToBlob_without_comma s :
  Forall (λ c, c ≠ Chr.comma) s →
  base64ToBlob s = inl InvalidCharacterError.
Proof.
  intros Hs. unfold base64ToBlob. by rewrite split_no_sep.
Qed.

Lemma base64ToBlob_without_comma_witness :
  Forall (λ c, c ≠ Chr.comma) (lit "data:image/jpeg;base64")
  ∧ base64ToBlob (lit "data:image/jpeg;base64") = inl InvalidCharacterError.
Proof.
  assert (H : Forall (λ c, c ≠ Chr.comma) (lit "data:image/jpeg;base64"))
    by (apply Forall_forall; intros c Hc%list_elem_of_In;
        vm_compute in Hc; intros ->; intuition discriminate).
  split; [exact H|].
  apply (base64ToBlob_without_comma (lit "data:image/jpeg;base64") H).
Defined.

Lemma decode_sextets_length vs :
  (4 * length (Base64.decode_sextets vs) ≤ 3 * length vs)%nat.
Proof.
  induction vs as [|a|a b|a b c|a b c d l IH] using Base64Facts.list_ind4;
    cbn [Base64.decode_sextets length]; lia.
Qed.

Lemma values_length s vs : Base64.values s = Some vs → length vs = length s.
Proof.
  intros H%Base64Facts.values_Forall2. symmetry. by eapply Forall2_length.
Qed.

Lemma strip_padding_length s : (length (Base64.strip_padding s) ≤ length s)%nat.
Proof.
  induction s as [|c s IH]; [done|]. cbn [Base64.strip_padding].
  case_match; cbn [length]; lia.
Qed.

(** [atob] gives at most three bytes for four code units. *)
Lemma atob_length s byteString :
  Base64.atob s = inr byteString →
  (4 * length byteString ≤ 3 * length s)%nat.
Proof.
  unfold Base64.atob. intros H.
  pose proof (length_filter (λ c, Base64.is_ascii_whitespace c = false) s) as Hf.
  fold (Base64.remove_whitespace s) in Hf.
  pose proof (strip_padding_length (Base64.remove_whitespace s)) as Hs.
  repeat case_match; simplify_eq;
    match goal with
    | Hv : Base64.values _ = Some ?vs |- _ =>
        apply values_length in Hv;
        pose proof (decode_sextets_length vs); lia
    end.
Qed.

(** The second part of a split is the text after the first separator,
    up to the next one. *)
Lemma split_second s p :
  split Chr.comma s !! 1%nat = Some p →
  ∃ remainder, after_first_comma s = Some remainder
               ∧ p = before_first_comma remainder.
Proof.
  induction s as [|c s IH]; [done|]. cbn [split after_first_comma].
  destruct (c =? Chr.comma).
  - intros Hp. exists s. split; [done|].
    change (split Chr.comma s !! 0%nat = Some p) in Hp.
    by rewrite <- split_head, Hp.
  - destruct (split Chr.comma s) as [|q qs]; [done|]. apply IH.
Qed.

Lemma before_first_comma_length s :
  (length (before_first_comma s) ≤ length s)%nat.
Proof.
  induction s as [|c s IH]; [done|]. cbn [before_first_comma].
  case_match; cbn [length]; lia.
Qed.

(** X3. Whatever [base64ToBlob] accepts has a comma, and the blob it
    makes holds bytes (every value below 256), at most three for every
    four code units after the first comma; it is a plain blob, without
    a name. *)
Theorem base64ToBlob_blob s blob :
  base64ToBlob s = inr blob →
  ∃ remainder,
    after_first_comma s = Some remainder
    ∧ Forall (λ x, x < 256) (blob_bytes blob)
    ∧ (4 * length (blob_bytes blob) ≤ 3 * length remainder)%nat
    ∧ blob_name blob = None.
Proof.
  unfold base64ToBlob.
  destruct (split Chr.comma s !! 1%nat) as [p|] eqn:Hp; cbn [default id];
    [|done].
  destruct (Base64.atob p) as [e|byteString] eqn:Hdec; cbn; [done|].
  destruct (match_colon_semicolon _) as [mimeString|]; cbn; [|done].
  intros [= <-]. cbn [new_Blob blob_bytes blob_name].
  destruct (split_second s p Hp) as (remainder & Hrem & ->).
  exists remainder. split; [done|].
  rewrite (Base64Facts.atob_binary _ _ Hdec).
  split; [|split; [|done]].
  - unfold Base64.atob in Hdec.
    repeat case_match; simplify_eq;
      eauto using Base64Facts.decode_sextets_lt, Base64Facts.values_lt.
  - pose proof (atob_length _ _ Hdec).
    pose proof (before_first_comma_length remainder). lia.
Qed.

Lemma base64ToBlob_blob_witness :
  let s := data_uri (lit "image/jpeg") jpeg_header_base64 in
  let blob := {| blob_bytes := jpeg_header; blob_type := lit "image/jpeg";
                 blob_name := None |} in
  base64ToBlob s = inr blob
  ∧ ∃ remainder,
      after_first_comma s = Some remainder
      ∧ Forall (λ x, x < 256) (blob_bytes blob)
      ∧ (4 * length (blob_bytes blob) ≤ 3 * length remainder)%nat
      ∧ blob_name blob = None.
Proof.
  intros s blob. split; [reflexivity|].
  apply (base64ToBlob_blob s blob). reflexivity.
Defined.

(** ** What an upload does and reports *)

Section UploadMore.

Context {JSValue : Type}.
Variable JSON_parse : jsstring → option JSValue.

Lemma buildFormData_thrown image e :
  buildFormData image = inl e
  ↔ ∃ s, image = ImageString s ∧ startsWith s (lit "data:") = true
         ∧ base64ToBlob s = inl e.
Proof.
  destruct image as [s|b]; cbn [buildFormData].
  - destruct (startsWith s (lit "data:")) eqn:Hs.
    + destruct (base64ToBlob s) as [e'|blob] eqn:Hb;
        cbn [mbind mret result_bind result_ret].
      * split; [intros [= <-]; eauto
               | intros (? & [= <-] & _ & H); congruence].
      * split; [done | intros (? & [= <-] & _ & H); congruence].
    + split; [done | intros (? & [= <-] & H & _); congruence].
  - split; [done | by intros (? & [=] & _)].
Qed.

(** X4. The promise of [handleImageUpload] rejects in one case only: a
    string that starts with [data:] and that [base64ToBlob] throws on,
    with that error and before any request is made. Blobs, files, other
    strings, network errors, replies that are not 2xx and bodies that
    are not JSON never make it reject. *)
Theorem handleImageUpload_rejects_iff env image e :
  (handleImageUpload JSON_parse env image).2 = inl e
  ↔ ∃ s, image = ImageString s ∧ startsWith s (lit "data:") = true
         ∧ base64ToBlob s = inl e
         ∧ handleImageUpload JSON_parse env image = ([], inl e).
Proof.
  split.
  - intros Hrej. destruct (buildFormData image) as [e'|formData] eqn:Hfd.
    + rewrite (handleImageUpload_thrown _ _ _ e' Hfd) in Hrej |- *.
      cbn in Hrej. simplify_eq.
      apply buildFormData_thrown in Hfd as (s & -> & Hs & Hb). eauto.
    + rewrite (handleImageUpload_built _ _ _ formData Hfd) in Hrej.
      destruct (postFormData_one_request JSON_parse env formData) as [_ Hok].
      congruence.
  - intros (s & _ & _ & _ & ->). done.
Qed.

Lemma postFormData_outcomes env formData :
  ∃ outcome, outcomes (postFormData JSON_parse env formData).1 = [outcome].
Proof.
  destruct (network env (upload_request env formData)) as [e|r] eqn:H.
  - rewrite (postFormData_rejected _ _ _ e) by done. by eexists.
  - destruct (ok r) eqn:Hok.
    + destruct (json JSON_parse r) as [e|data] eqn:Hj.
      * rewrite (postFormData_ok_no_json _ _ _ r e) by done. by eexists.
      * rewrite (postFormData_ok _ _ _ r data) by done. by eexists.
    + destruct (body r) as [e|t] eqn:Hb.
      * rewrite (postFormData_not_ok_unread _ _ _ r e) by done. by eexists.
      * rewrite (postFormData_not_ok _ _ _ r t) by done. by eexists.
Qed.

(** X5. No request goes unreported: the trace of an upload has as many
    reports (success or failure) as requests, one of each if the
    promise resolves and none if it rejects. *)
Theorem every_request_is_reported env image :
  let result := handleImageUpload JSON_parse env image in
  length (outcomes result.1) = length (requests result.1)
  ∧ length (requests result.1)
    = match result.2 with inr _ => 1%nat | inl _ => 0%nat end.
Proof.
  intros result. subst result.
  destruct (buildFormData image) as [e|formData] eqn:Hfd.
  - by rewrite (handleImageUpload_thrown _ _ _ e Hfd).
  - rewrite (handleImageUpload_built _ _ _ formData Hfd).
    destruct (postFormData_one_request JSON_parse env formData) as [-> ->].
    by destruct (postFormData_outcomes env formData) as [outcome ->].
Qed.

(** X6. Success is reported only for a reply with a 2xx status whose
    body was read and parsed: the value reported is the parsed body. *)
Theorem success_needs_ok_and_json env image data :
  Success data ∈ outcomes (handleImageUpload JSON_parse env image).1 →
  ∃ formData r t,
    buildFormData image = inr formData
    ∧ network env (upload_request env formData) = inr r
    ∧ 200 ≤ status r ≤ 299
    ∧ body r = inr t
    ∧ JSON_parse t = Some data.
Proof.
  destruct (buildFormData image) as [e|formData] eqn:Hfd.
  { rewrite (handleImageUpload_thrown _ _ _ e Hfd). by intros ?%elem_of_nil. }
  rewrite (handleImageUpload_built _ _ _ formData Hfd). intros Hin.
  exists formData.
  destruct (network env (upload_request env formData)) as [e|r] eqn:H.
  { rewrite (postFormData_rejected _ _ _ e) in Hin by done.
    apply list_elem_of_singleton in Hin. done. }
  destruct (ok r) eqn:Hok.
  - destruct (body r) as [e|t] eqn:Hb.
    { rewrite (postFormData_ok_no_json _ _ _ r e) in Hin;
        [|done..|by unfold json; rewrite Hb].
      apply list_elem_of_singleton in Hin. done. }
    destruct (JSON_parse t) as [data'|] eqn:Hj.
    + rewrite (postFormData_ok _ _ _ r data') in Hin;
        [|done..|by unfold json; rewrite Hb; cbn; rewrite Hj].
      apply list_elem_of_singleton in Hin. simplify_eq.
      exists r, t. unfold ok in Hok.
      apply andb_true_iff in Hok as [?%N.leb_le ?%N.leb_le]. done.
    + rewrite (postFormData_ok_no_json _ _ _ r
                 (SyntaxError (lit "Unexpected token"))) in Hin;
        [|done..|by unfold json; rewrite Hb; cbn; rewrite Hj].
      apply list_elem_of_singleton in Hin. done.
  - destruct (body r) as [e|t] eqn:Hb.
    + rewrite (postFormData_not_ok_unread _ _ _ r e) in Hin by done.
      apply list_elem_of_singleton in Hin. done.
    + rewrite (postFormData_not_ok _ _ _ r t) in Hin by done.
      apply list_elem_of_singleton in Hin. done.
Qed.

(** X7. When the body of the reply cannot be read, the read error is
    what is reported, for a status that is not 2xx as for a 2xx one:
    the status is not in the report. *)
Theorem unreadable_body_is_reported env image formData r e :
  buildFormData image = inr formData →
  network env (upload_request env formData) = inr r →
  body r = inl e →
  handleImageUpload JSON_parse env image
  = ([Fetch (upload_request env formData);
      ConsoleError [CStr (lit "Error uploading image:"); CErr e]], inr tt)
  ∧ outcomes (handleImageUpload JSON_parse env image).1 = [Failure (Cause e)].
Proof.
  intros Hfd Hnet Hb.
  rewrite (handleImageUpload_built _ _ _ formData Hfd).
  destruct (ok r) eqn:Hok.
  - by rewrite (postFormData_ok_no_json _ _ _ r e);
      [|done..|by unfold json; rewrite Hb].
  - by rewrite (postFormData_not_ok_unread _ _ _ r e).
Qed.

End UploadMore.

Lemma success_needs_ok_and_json_witness :
  let reply := {| status := 201; body := inr ok_true_text |} in
  let env := sample_env (inr reply) in
  let image := ImageString (lit "https://fridge.example/photo.jpg") in
  Success (JObject (lit "ok") JTrue)
    ∈ outcomes (handleImageUpload parse_sample env image).1
  ∧ ∃ formData r t,
      buildFormData image = inr formData
      ∧ network env (upload_request env formData) = inr r
      ∧ 200 ≤ status r ≤ 299
      ∧ body r = inr t
      ∧ parse_sample t = Some (JObject (lit "ok") JTrue).
Proof.
  intros reply env image.
  assert (H : Success (JObject (lit "ok") JTrue)
              ∈ outcomes (handleImageUpload parse_sample env image).1)
    by (apply list_elem_of_singleton; reflexivity).
  split; [exact H|].
  apply (success_needs_ok_and_json parse_sample env image _ H).
Defined.

Lemma unreadable_body_is_reported_witness :
  let e := TypeError (lit "network error") in
  let reply := {| status := 502; body := inl e |} in
  let env := sample_env (inr reply) in
  let file := {| blob_bytes := jpeg_header; blob_type := lit "image/jpeg";
                 blob_name := Some (lit "fridge.jpg") |} in
  outcomes (handleImageUpload parse_sample env (ImageBlob file)).1
  = [Failure (Cause e)].
Proof.
  intros e reply env file.
  apply (unreadable_body_is_reported parse_sample env (ImageBlob file)
           [(lit "image", FDFile {| file_bytes := jpeg_header;
                                    file_type := lit "image/jpeg";
                                    file_name := lit "fridge.jpg" |})]
           reply e); reflexivity.
Defined.

(** ** Runs of the page *)

Lemma buildFormData_length image formData :
  buildFormData image = inr formData → length formData = 1%nat.
Proof.
  destruct image as [s|b]; cbn [buildFormData].
  - destruct (startsWith s (lit "data:")).
    + destruct (base64ToBlob s); cbn [mbind mret result_bind result_ret];
        [done | by intros [= <-]].
    + by intros [= <-].
  - by intros [= <-].
Qed.

Lemma upload_request_shaped env formData :
  length formData = 1%nat → upload_shaped (upload_request env formData).
Proof.
  intros Hlen. split; [done|]. split; [|done].
  cbn [upload_request req_url]. unfold apiEndpoint.
  destruct (window_origin env) as [origin|]; [apply endsWith_app|].
  apply (endsWith_app []).
Qed.

Section RunFacts.

Context {JSValue : Type}.
Variable JSON_parse : jsstring → option JSValue.

Lemma handleMobileFile_trace env file (st : PageState (JSValue:=JSValue)) :
  trace (handleMobileFile JSON_parse env (Some file) st)
  = trace st ++ (handleImageUpload JSON_parse env (ImageBlob file)).1
    ++ match (handleImageUpload JSON_parse env (ImageBlob file)).2 with
       | inl e => [UnhandledRejection e]
       | inr _ => []
       end.
Proof. cbn [handleMobileFile createObjectURL]. by rewrite spawn_upload_trace. Qed.

Lemma requests_app (tr1 tr2 : list (Event (JSValue:=JSValue))) :
  requests (tr1 ++ tr2) = requests tr1 ++ requests tr2.
Proof. apply omap_app. Qed.

(** The requests of an upload, with what is left of its promise. *)
Lemma upload_requests env image :
  requests ((handleImageUpload JSON_parse env image).1
            ++ match (handleImageUpload JSON_parse env image).2 with
               | inl e => [UnhandledRejection e]
               | inr _ => []
               end)
  = match buildFormData image with
    | inr formData => [upload_request env formData]
    | inl _ => []
    end.
Proof.
  destruct (buildFormData image) as [e|formData] eqn:Hfd.
  - by rewrite (handleImageUpload_thrown _ _ _ e Hfd).
  - rewrite (handleImageUpload_built _ _ _ formData Hfd).
    destruct (postFormData_one_request JSON_parse env formData) as [H1 ->].
    by rewrite app_nil_r.
Qed.

(** The requests one event adds. *)
Lemma handle_requests (st : PageState (JSValue:=JSValue)) ev :
  ∃ new, requests (trace (handle JSON_parse st ev)) = requests (trace st) ++ new
         ∧ length new = (if posts ev then 1 else 0)%nat
         ∧ Forall upload_shaped new.
Proof.
  destruct ev as [env data | env [file|]]; cbn [handle posts].
  - rewrite handleCapture_trace, requests_app, upload_requests.
    eexists. split; [done|].
    destruct (buildFormData data) as [e|formData] eqn:Hfd;
      (split; [done|]); [apply Forall_nil_2|].
    apply Forall_singleton.
    eapply upload_request_shaped, buildFormData_length, Hfd.
  - rewrite handleMobileFile_trace, requests_app, upload_requests.
    eexists. split; [done|]. split; [done|].
    apply Forall_singleton. by apply upload_request_shaped.
  - exists []. rewrite app_nil_r. split; [done|]. split; [done|].
    apply Forall_nil_2.
Qed.

(** X8. Over a run of the page every event makes at most one request
    and none is repeated: the trace gains one request for each capture
    whose form data is built and for each chosen file, and nothing for a
    malformed data URI or a cancelled file dialog. *)
Theorem run_requests_count (st : PageState (JSValue:=JSValue)) evs :
  length (requests (trace (run JSON_parse st evs)))
  = (length (requests (trace st)) + length (List.filter posts evs))%nat.
Proof.
  revert st. induction evs as [|ev evs IH]; intros st.
  - cbn. lia.
  - change (run JSON_parse st (ev :: evs))
      with (run JSON_parse (handle JSON_parse st ev) evs).
    rewrite IH. destruct (handle_requests st ev) as (new & -> & Hlen & _).
    rewrite length_app, Hlen. cbn [List.filter].
    destruct (posts ev); cbn [length]; lia.
Qed.

(** X9. Every request the page ever makes is a POST to a URL that ends
    in [/api/upload], with form data of exactly one entry. *)
Theorem run_requests_shape userAgent evs :
  Forall upload_shaped
    (requests (trace (run JSON_parse (detect_device userAgent initial) evs))).
Proof.
  assert (Hgen : ∀ st : PageState (JSValue:=JSValue),
            Forall upload_shaped (requests (trace st)) →
            Forall upload_shaped (requests (trace (run JSON_parse st evs)))).
  { induction evs as [|ev evs IH]; intros st Hst; [done|].
    cbn [run foldl]. apply IH.
    destruct (handle_requests st ev) as (new & -> & _ & Hnew).
    by apply Forall_app. }
  apply Hgen. constructor.
Qed.

Lemma handle_store (st : PageState (JSValue:=JSValue)) ev :
  (∀ id, is_Some (blob_urls st !! id) ↔ id < next_url st) →
  next_url (handle JSON_parse st ev)
  = next_url st + (if makes_object_url ev then 1 else 0)
  ∧ ∀ id, is_Some (blob_urls (handle JSON_parse st ev) !! id)
          ↔ id < next_url (handle JSON_parse st ev).
Proof.
  intros Hst.
  assert (Hnew : ∀ (b : Blob) id,
            is_Some (<[next_url st := b]> (blob_urls st) !! id)
            ↔ id < next_url st + 1).
  { intros b id. rewrite lookup_insert. case_decide as Hid.
    - subst id. split; [lia | by eauto].
    - rewrite Hst. lia. }
  destruct ev as [env [s|b] | env [b|]]; cbn [handle makes_object_url].
  - destruct (handleCapture_state JSON_parse env (ImageString s) st)
      as (_ & _ & -> & ->).
    split; [lia | done].
  - destruct (handleCapture_state JSON_parse env (ImageBlob b) st)
      as (_ & _ & -> & ->).
    split; [done | apply Hnew].
  - destruct (handleMobileFile_state JSON_parse env (Some b) st)
      as (_ & _ & -> & ->).
    split; [done | apply Hnew].
  - cbn [handleMobileFile]. split; [lia | done].
Qed.

(** X10. Object URLs pile up: after a run of the page from its start,
    the blob URL store holds one URL for every blob or file captured so
    far, those numbered below [next_url] and no other; none has been
    taken out. *)
Theorem object_urls_accumulate userAgent evs :
  let st := run JSON_parse (detect_device userAgent initial) evs in
  next_url st = N.of_nat (length (List.filter makes_object_url evs))
  ∧ ∀ id, is_Some (blob_urls st !! id) ↔ id < next_url st.
Proof.
  assert (Hgen : ∀ st : PageState (JSValue:=JSValue),
            (∀ id, is_Some (blob_urls st !! id) ↔ id < next_url st) →
            next_url (run JSON_parse st evs)
            = next_url st + N.of_nat (length (List.filter makes_object_url evs))
            ∧ ∀ id, is_Some (blob_urls (run JSON_parse st evs) !! id)
                    ↔ id < next_url (run JSON_parse st evs)).
  { induction evs as [|ev evs IH]; intros st Hst.
    - cbn. split; [lia | done].
    - change (run JSON_parse st (ev :: evs))
        with (run JSON_parse (handle JSON_parse st ev) evs).
      destruct (handle_store st ev Hst) as [Hnext Hst'].
      destruct (IH _ Hst') as [-> Hfinal]. split; [|done].
      rewrite Hnext. cbn [List.filter].
      destruct (makes_object_url ev); cbn [length]; lia. }
  intros st. subst st. apply Hgen. intros id. cbn.
  rewrite lookup_empty. split; [by intros [? ?] | lia].
Qed.

Lemma handle_screenshot (st : PageState (JSValue:=JSValue)) ev :
  if stores_preview ev then is_Some (screenshot (handle JSON_parse st ev))
  else screenshot (handle JSON_parse st ev) = screenshot st.
Proof.
  destruct ev as [env [s|b] | env [b|]]; cbn [handle stores_preview].
  - destruct (handleCapture_state JSON_parse env (ImageString s) st)
      as (_ & -> & _). by eexists.
  - destruct (handleCapture_state JSON_parse env (ImageBlob b) st)
      as (_ & -> & _). by eexists.
  - destruct (handleMobileFile_state JSON_parse env (Some b) st)
      as (_ & -> & _). by eexists.
  - done.
Qed.

(** X11. A preview is never cleared: after a run the stored preview is
    [null] only if it was [null] before and the run was nothing but
    cancelled file dialogs. *)
Theorem preview_is_never_cleared (st : PageState (JSValue:=JSValue)) evs :
  screenshot (run JSON_parse st evs) = None
  ↔ screenshot st = None ∧ Forall (λ ev, stores_preview ev = false) evs.
Proof.
  revert st. induction evs as [|ev evs IH]; intros st.
  - cbn. split; [by intros ->; split; [|constructor] | by intros [-> _]].
  - change (run JSON_parse st (ev :: evs))
      with (run JSON_parse (handle JSON_parse st ev) evs).
    rewrite IH, Forall_cons. pose proof (handle_screenshot st ev) as Hev.
    destruct (stores_preview ev).
    + destruct Hev as [src ->]. split; [by intros [? _] | by intros [_ [? _]]].
    + rewrite Hev. tauto.
Qed.

End RunFacts.

(** ** Device detection *)

Lemma matches_here_upper pat s s' :
  ascii_uppercase <$> s = ascii_uppercase <$> s' →
  matches_here_ignore_case pat s = matches_here_ignore_case pat s'.
Proof.
  revert s s'. induction pat as [|p pat IH]; intros s s' H; [done|].
  destruct s as [|c s], s' as [|c' s']; try done.
  cbn in H. injection H as Hc Hs.
  cbn [matches_here_ignore_case]. by rewrite Hc, (IH s s').
Qed.

Lemma test_ignore_case_upper alternatives s s' :
  ascii_uppercase <$> s = ascii_uppercase <$> s' →
  test_ignore_case alternatives s = test_ignore_case alternatives s'.
Proof.
  revert s'. induction s as [|c s IH]; intros [|c' s'] H; try done.
  cbn [test_ignore_case].
  assert (Hs : ascii_uppercase <$> s = ascii_uppercase <$> s')
    by (cbn in H; by injection H).
  rewrite (IH s' Hs). f_equal.
  clear IH. induction alternatives as [|pat alternatives IHa]; [done|].
  cbn [existsb]. by rewrite IHa, (matches_here_upper pat _ _ H).
Qed.

Section DetectionFacts.

Context {JSValue : Type}.

(** X12. The detection does not see the case of ASCII letters: two user
    agent strings that are equal once their letters [a]-[z] are put in
    upper case give the same capture mode. *)
Theorem detection_ignores_case userAgent userAgent'
    (st : PageState (JSValue:=JSValue)) :
  ascii_uppercase <$> userAgent = ascii_uppercase <$> userAgent' →
  isMobileDevice (detect_device (Some userAgent) st)
  = isMobileDevice (detect_device (Some userAgent') st).
Proof.
  intros H. cbn. f_equal. by apply test_ignore_case_upper.
Qed.

(** X13. The detection is a search: text put before and after a user
    agent string that is taken for a mobile device leaves it mobile. *)
Theorem detection_is_a_search userAgent before after
    (st : PageState (JSValue:=JSValue)) :
  isMobileDevice (detect_device userAgent st) = Some true →
  isMobileDevice
    (detect_device (Some (before ++ default [] userAgent ++ after)) st)
  = Some true.
Proof.
  cbn. intros [= H]. f_equal.
  apply test_ignore_case_spec in H as (pre & m & post & pat & Hin & -> & Hm).
  apply test_ignore_case_spec.
  exists (before ++ pre), m, (post ++ after), pat.
  by rewrite <- !app_assoc.
Qed.

(** X14. A user agent string that is missing, empty or shorter than
    four code units is taken for a desktop. *)
Theorem short_user_agent_is_desktop userAgent
    (st : PageState (JSValue:=JSValue)) :
  (length (default [] userAgent) < 4)%nat →
  isMobileDevice (detect_device userAgent st) = Some false.
Proof.
  intros Hlen. cbn. f_equal. apply not_true_is_false.
  intros (pre & m & post & pat & Hin & Hua & Hm)%test_ignore_case_spec.
  rewrite Hua in Hlen.
  apply (f_equal length) in Hm. rewrite !length_fmap in Hm.
  rewrite !length_app in Hlen.
  assert (4 ≤ length pat)%nat; [|lia].
  unfold mobile_patterns in Hin.
  repeat (apply elem_of_cons in Hin as [->|Hin]; [cbn; lia|]).
  by apply elem_of_nil in Hin.
Qed.

End DetectionFacts.

Lemma detection_ignores_case_witness :
  let st : PageState (JSValue:=Json) := initial in
  ascii_uppercase <$> lit "Mozilla/5.0 (iPhone; CPU iPhone OS 17_0)"
  = ascii_uppercase <$> lit "MOZILLA/5.0 (IPHONE; cpu iphone os 17_0)"
  ∧ isMobileDevice
      (detect_device (Some (lit "Mozilla/5.0 (iPhone; CPU iPhone OS 17_0)")) st)
    = isMobileDevice
        (detect_device (Some (lit "MOZILLA/5.0 (IPHONE; cpu iphone os 17_0)")) st).
Proof.
  intros st. split; [reflexivity|].
  apply (detection_ignores_case
           (lit "Mozilla/5.0 (iPhone; CPU iPhone OS 17_0)")
           (lit "MOZILLA/5.0 (IPHONE; cpu iphone os 17_0)") st).
  reflexivity.
Defined.

Lemma detection_is_a_search_witness :
  let st : PageState (JSValue:=Json) := initial in
  isMobileDevice (detect_device (Some (lit "android")) st) = Some true
  ∧ isMobileDevice
      (detect_device
         (Some (lit "Mozilla/5.0 (Linux; " ++ lit "android" ++ lit " 14)")) st)
    = Some true.
Proof.
  intros st. split; [reflexivity|].
  apply (detection_is_a_search (Some (lit "android"))
           (lit "Mozilla/5.0 (Linux; ") (lit " 14)") st).
  reflexivity.
Defined.

Lemma short_user_agent_is_desktop_witness :
  let st : PageState (JSValue:=Json) := initial in
  (length (default [] (None : option jsstring)) < 4)%nat
  ∧ isMobileDevice (detect_device None st) = Some false.
Proof.
  intros st. split; [cbn; lia|].
  apply (short_user_agent_is_desktop None st). cbn. lia.
Defined.

(** ** MobileCamera: more on the stream lifecycle *)

Module CameraMore.
Import MobileCamera CameraFacts.
Local Open Scope nat_scope.

Lemma switch_fields st :
  mounted st = true →
  facingMode (step st SwitchCamera) = toggleCamera (facingMode st)
  ∧ pending (step st SwitchCamera)
    = pending st ++ [(length (activeStream st), toggleCamera (facingMode st))]
  ∧ mounted (step st SwitchCamera) = true
  ∧ activeStream (step st SwitchCamera) = activeStream st ++ [None].
Proof.
  intros Hm. cbn [step]. rewrite Hm.
  destruct (cleanup_fields st) as (Hf & Hm' & Ha & Hp & _).
  unfold run_effect. cbn. by rewrite Hf, Ha, Hp, Hm'.
Qed.

(** X15. Every press of the button makes one [getUserMedia] call, for
    the facing mode opposite to the current one; after two presses the
    facing mode is the first one again and two calls have been made. *)
Theorem switch_twice st :
  mounted st = true →
  let n := length (activeStream st) in
  let st1 := step st SwitchCamera in
  let st2 := step st1 SwitchCamera in
  facingMode st1 = toggleCamera (facingMode st)
  ∧ pending st1 = pending st ++ [(n, toggleCamera (facingMode st))]
  ∧ facingMode st2 = facingMode st
  ∧ pending st2 = pending st ++ [(n, toggleCamera (facingMode st));
                                 (S n, facingMode st)].
Proof.
  intros Hm n st1 st2.
  destruct (switch_fields st Hm) as (Hf1 & Hp1 & Hm1 & Ha1).
  destruct (switch_fields st1 Hm1) as (Hf2 & Hp2 & _ & _).
  fold st1 in Hf1, Hp1, Ha1. fold st2 in Hf2, Hp2.
  split; [done|]. split; [done|].
  rewrite Hf2, Hp2, Hf1, Hp1, Ha1, length_app, <- app_assoc.
  split; [by destruct (facingMode st)|].
  cbn. do 4 f_equal; [subst n; lia | by destruct (facingMode st)].
Qed.

Lemma switch_twice_witness :
  let st := run [Mount; Granted 0] in
  mounted st = true
  ∧ facingMode (step st SwitchCamera) = user
  ∧ facingMode (step (step st SwitchCamera) SwitchCamera) = environment
  ∧ pending (step (step st SwitchCamera) SwitchCamera)
    = [(1, user); (2, environment)].
Proof.
  intros st. split; [reflexivity|].
  destruct (switch_twice st eq_refl) as (H1 & _ & H2 & H3).
  split; [exact H1|]. split; [exact H2 | exact H3].
Defined.

Lemma last_insert {A} (l : list A) i x :
  last (<[i := x]> l) = if decide (S i = length l) then Some x else last l.
Proof.
  rewrite !last_lookup, length_insert.
  case_decide as Hi.
  - rewrite <- Hi. cbn. apply list_lookup_insert_eq. lia.
  - destruct (decide (i < length l)) as [Hlt|Hge].
    + rewrite list_lookup_insert_ne by lia. done.
    + by rewrite list_insert_ge by lia.
Qed.

(** One step keeps a live stream that no cleanup can reach. *)
Lemma leak_step st ev s x :
  streams st !! s = Some x → is_live x = true →
  mounted st = false ∨ last (activeStream st) ≠ Some (Some s) →
  streams (step st ev) !! s = Some x
  ∧ (mounted (step st ev) = false
     ∨ last (activeStream (step st ev)) ≠ Some (Some s)).
Proof.
  intros Hs Hl Hreach.
  assert (Hclean : last (activeStream st) ≠ Some (Some s) →
                   streams (cleanup st) !! s = Some x).
  { intros Hne. unfold cleanup.
    destruct (last (activeStream st)) as [[s'|]|]; try done.
    cbn. rewrite list_lookup_alter_ne; [done | congruence]. }
  destruct (cleanup_fields st) as (Hf & Hm' & Ha & Hp & _).
  destruct ev as [| |r|r|]; cbn [step].
  - destruct (mounted st) eqn:Hm.
    { split; [done|]. destruct Hreach as [?|?]; [done | by right]. }
    unfold run_effect. cbn. split; [done|]. right. by rewrite last_snoc.
  - destruct (mounted st) eqn:Hm; [|by split; [|left]].
    destruct Hreach as [?|Hne]; [done|].
    unfold run_effect. cbn. split; [by apply Hclean|].
    right. by rewrite Ha, last_snoc.
  - destruct (is_pending r st) as [facing|]; [|done]. cbn.
    split; [by apply lookup_app_l_Some|].
    destruct Hreach as [Hm|Hne]; [by left|]. right.
    rewrite last_insert. case_decide; [|done].
    apply lookup_lt_Some in Hs. intros [= ?]. lia.
  - destruct (is_pending r st) as [facing|]; done.
  - destruct (mounted st) eqn:Hm; [|by split; [|left]].
    destruct Hreach as [?|Hne]; [done|].
    cbn. split; [by apply Hclean | by left].
Qed.

(** X16. A stream is stopped only by the cleanup of the latest run of
    the effect, and only while the component is mounted. A live stream
    that belongs to an earlier run, or that arrived after the unmount,
    stays live whatever happens next: nothing will stop it. *)
Theorem unreachable_stream_stays_live st s x evs :
  streams st !! s = Some x → is_live x = true →
  mounted st = false ∨ last (activeStream st) ≠ Some (Some s) →
  streams (foldl step st evs) !! s = Some x.
Proof.
  revert st. induction evs as [|ev evs IH]; intros st Hs Hl Hreach; [done|].
  cbn [foldl]. destruct (leak_step st ev s x Hs Hl Hreach) as [Hs' Hreach'].
  by apply IH.
Qed.

Lemma unreachable_stream_stays_live_witness :
  let st := run [Mount; Unmount; Granted 0] in
  streams st !! 0 = Some (environment, [live])
  ∧ mounted st = false
  ∧ streams (foldl step st [Mount; Granted 1; SwitchCamera; Granted 2; Unmount])
    !! 0 = Some (environment, [live]).
Proof.
  intros st. split; [reflexivity|]. split; [reflexivity|].
  apply (unreachable_stream_stays_live st 0 (environment, [live]));
    [reflexivity | reflexivity | left; reflexivity].
Defined.

Lemma no_live_streams st : no_live st → live_streams st = [].
Proof.
  unfold no_live, live_streams.
  induction 1 as [|y l Hy _ IH]; [done|]. cbn [List.filter]. by rewrite Hy.
Qed.

(** X17. For a patient user, unmounting when no call is pending leaves
    no live stream: the cleanup stops the one there is. *)
Theorem unmount_releases_the_camera st :
  patient st → pending st = [] →
  live_streams (step st Unmount) = [].
Proof.
  intros Hinv%patient_invariant Hp.
  pose proof (invariant_step st Unmount Hinv (λ _, Hp)) as (_ & _ & Hunm).
  assert (Hm : mounted (step st Unmount) = false).
  { cbn [step]. by destruct (mounted st) eqn:Hm. }
  destruct (Hunm Hm) as [_ Hno]. by apply no_live_streams.
Qed.

Lemma unmount_releases_the_camera_witness :
  let st := run [Mount; Granted 0; SwitchCamera; Granted 1] in
  pending st = []
  ∧ live_streams st = [(user, [live])]
  ∧ live_streams (step st Unmount) = [].
Proof.
  intros st. split; [reflexivity|]. split; [reflexivity|].
  apply (unmount_releases_the_camera st); [|reflexivity].
  apply (patient_step _ (Granted 1)); [|intros [?|?]; discriminate].
  apply (patient_step _ SwitchCamera); [|intros _; reflexivity].
  apply (patient_step _ (Granted 0)); [|intros [?|?]; discriminate].
  apply (patient_step _ Mount); [|intros [?|?]; discriminate].
  apply patient_unmounted.
Defined.

End CameraMore.

(** ** What the capture widgets hand over *)

(** X18. A capture of the mobile camera with a video element and a
    canvas context: the canvas is never without pixels (a size of 0
    becomes 640 or 480), so the data URI is never [data:,]; it is the
    JPEG data URI of the file the encoder made, and the form data built
    of it holds exactly the bytes of that file, as [image/jpeg], named
    [captured.jpg]. Without a video element or a context nothing is
    handed over. *)
Theorem mobile_capture_is_uploaded jpeg video :
  (∀ w h, Forall (λ x, x < 256) (jpeg video w h)) →
  let width := MobileCapture.or_else (MobileCapture.videoWidth video) 640 in
  let height := MobileCapture.or_else (MobileCapture.videoHeight video) 480 in
  let file := jpeg video width height in
  width ≠ 0 ∧ height ≠ 0
  ∧ MobileCapture.capturePhoto jpeg (Some video) true
    = Some (ImageString (data_uri (lit "image/jpeg") (Base64.btoa file)))
  ∧ buildFormData (ImageString (data_uri (lit "image/jpeg") (Base64.btoa file)))
    = inr [(lit "image", FDFile {| file_bytes := file;
                                   file_type := lit "image/jpeg";
                                   file_name := lit "captured.jpg" |})]
  ∧ MobileCapture.capturePhoto jpeg (Some video) false = None
  ∧ (∀ getContext_2d, MobileCapture.capturePhoto jpeg None getContext_2d = None).
Proof.
  intros Hbytes width height file.
  assert (Hw : width ≠ 0)
    by (subst width; unfold MobileCapture.or_else; cmp_cases; lia).
  assert (Hh : height ≠ 0)
    by (subst height; unfold MobileCapture.or_else; cmp_cases; lia).
  split; [done|]. split; [done|].
  split; [|split; [|split; [reflexivity | intros; reflexivity]]].
  - cbn [MobileCapture.capturePhoto]. fold width height.
    unfold MobileCapture.toDataURL_jpeg.
    apply N.eqb_neq in Hw, Hh. by rewrite Hw, Hh.
  - cbn [buildFormData]. unfold data_uri at 1. rewrite startsWith_app.
    rewrite (base64ToBlob_data_uri (lit "image/jpeg") _ file);
      [reflexivity | reflexivity | apply EncodeFacts.atob_btoa, Hbytes].
Qed.

Lemma mobile_capture_is_uploaded_witness :
  let jpeg := λ (_ : MobileCapture.Video) (_ _ : N), jpeg_header in
  let video := {| MobileCapture.videoWidth := 0;
                  MobileCapture.videoHeight := 0 |} in
  MobileCapture.capturePhoto jpeg (Some video) true
  = Some (ImageString (data_uri (lit "image/jpeg") jpeg_header_base64))
  ∧ buildFormData (ImageString (data_uri (lit "image/jpeg") jpeg_header_base64))
    = inr [(lit "image", FDFile {| file_bytes := jpeg_header;
                                   file_type := lit "image/jpeg";
                                   file_name := lit "captured.jpg" |})].
Proof.
  intros jpeg video.
  destruct (mobile_capture_is_uploaded jpeg video) as (_ & _ & H1 & H2 & _ & _).
  - intros w h. repeat constructor.
  - split; [exact H1 | exact H2].
Defined.

Lemma desktop_run_nonempty showWebcam evs image :
  image ∈ (DesktopCamera.run showWebcam evs).2 → image ≠ ImageString [].
Proof.
  revert showWebcam. induction evs as [|ev evs IH]; intros showWebcam.
  - by intros ?%elem_of_nil.
  - cbn [DesktopCamera.run].
    destruct (DesktopCamera.step showWebcam ev) as [showWebcam' emitted] eqn:Hstep.
    specialize (IH showWebcam').
    destruct (DesktopCamera.run showWebcam' evs) as [final images].
    cbn [snd] in *. destruct emitted as [image'|]; [|done].
    intros [->|Hin]%elem_of_cons; [|by apply IH].
    destruct ev as [| |[[|c src]|]|[file|]], showWebcam;
      cbn in Hstep; by simplify_eq.
Qed.

Section WidgetFacts.

Context {JSValue : Type}.
Variable JSON_parse : jsstring → option JSValue.

(** X19. Whatever the desktop camera hands over, from the webcam or
    from the file input, is never the empty string; with the capture
    mode known, the page stores a preview that is not empty for it and
    shows it. *)
Theorem desktop_capture_is_shown showWebcam evs image env mobile
    (st : PageState (JSValue:=JSValue)) :
  image ∈ (DesktopCamera.run showWebcam evs).2 →
  isMobileDevice st = Some mobile →
  image ≠ ImageString []
  ∧ ∃ preview,
      preview ≠ []
      ∧ screenshot (handleCapture JSON_parse env image st) = Some preview
      ∧ render (handleCapture JSON_parse env image st)
        = Main (if mobile then MobileCameraAndFileInput else DesktopCameraWidget)
               (Some preview).
Proof.
  intros Hin%desktop_run_nonempty Hm. split; [done|].
  destruct (handleCapture_state JSON_parse env image st) as [Hdev Hst].
  assert (∃ preview, preview ≠ []
            ∧ screenshot (handleCapture JSON_parse env image st) = Some preview)
    as (preview & Hne & Hshot).
  { destruct image as [s|b].
    - exists s. split; [congruence | apply Hst].
    - exists (object_url (next_url st)). split; [done | apply Hst]. }
  exists preview. split; [done|]. split; [done|].
  unfold render. rewrite Hdev, Hm, Hshot. by destruct preview.
Qed.

End WidgetFacts.

Lemma desktop_capture_is_shown_witness :
  let evs := [DesktopCamera.CapturePhoto (Some (lit "data:image/jpeg;base64,QUJD"));
              DesktopCamera.OpenWebcam;
              DesktopCamera.CapturePhoto None;
              DesktopCamera.CapturePhoto (Some (lit "data:image/jpeg;base64,QUJD"))] in
  let image := ImageString (lit "data:image/jpeg;base64,QUJD") in
  let env := sample_env (inr {| status := 200; body := inr ok_true_text |}) in
  let st : PageState (JSValue:=Json) := detect_device None initial in
  (DesktopCamera.run false evs).2 = [image]
  ∧ ∃ preview,
      preview ≠ []
      ∧ screenshot (handleCapture parse_sample env image st) = Some preview
      ∧ render (handleCapture parse_sample env image st)
        = Main DesktopCameraWidget (Some preview).
Proof.
  intros evs image env st. split; [reflexivity|].
  apply (desktop_capture_is_shown parse_sample false evs image env false st);
    [apply list_elem_of_singleton; reflexivity | reflexivity].
Defined.

(** ** More on what is decoded and what is posted *)

(** X20. While the webcam has not been opened the capture button hands
    nothing over: what the desktop camera passes on is then a chosen
    file, never a string. *)
Theorem closed_webcam_gives_only_files evs image :
  DesktopCamera.OpenWebcam ∉ evs →
  image ∈ (DesktopCamera.run false evs).2 →
  ∃ file, image = ImageBlob file.
Proof.
  induction evs as [|ev evs IH]; intros Hopen.
  - by intros ?%elem_of_nil.
  - apply not_elem_of_cons in Hopen as [Hev Hopen].
    cbn [DesktopCamera.run].
    destruct ev as [| |getScreenshot|[file|]]; cbn [DesktopCamera.step];
      try done;
      destruct (DesktopCamera.run false evs) as [final images];
      cbn [snd DesktopCamera.onFileChange] in *; auto.
    intros [->|Hin]%elem_of_cons; eauto.
Qed.

Lemma closed_webcam_gives_only_files_witness :
  let file := {| blob_bytes := jpeg_header; blob_type := lit "image/jpeg";
                 blob_name := Some (lit "fridge.jpg") |} in
  let evs := [DesktopCamera.CapturePhoto (Some (lit "data:image/jpeg;base64,QUJD"));
              DesktopCamera.FileChange None;
              DesktopCamera.FileChange (Some file);
              DesktopCamera.CloseWebcam] in
  (DesktopCamera.run false evs).2 = [ImageBlob file]
  ∧ ∃ file', ImageBlob file = ImageBlob file'.
Proof.
  intros file evs. split; [reflexivity|].
  apply (closed_webcam_gives_only_files evs (ImageBlob file)).
  - intros Hin. repeat (apply elem_of_cons in Hin as [Hin|Hin]; [discriminate|]).
    by apply elem_of_nil in Hin.
  - apply list_elem_of_singleton. reflexivity.
Defined.

Lemma lazy_until_semicolon_Some s g :
  lazy_until_semicolon s = Some g →
  Forall (λ c, c ≠ Chr.semicolon ∧ is_line_terminator c = false) g
  ∧ ∃ post, s = g ++ Chr.semicolon :: post.
Proof.
  revert g. induction s as [|c s IH]; intros g; [done|].
  cbn [lazy_until_semicolon].
  destruct (N.eqb_spec c Chr.semicolon) as [->|Hc].
  - intros [= <-]. split; [constructor | by exists s].
  - destruct (is_line_terminator c) eqn:Hlt; [done|].
    destruct (lazy_until_semicolon s) as [g'|]; [|done].
    intros [= <-]. destruct (IH g' eq_refl) as [HF [post ->]].
    split; [by constructor | by exists post].
Qed.

Lemma match_colon_semicolon_Some s g :
  match_colon_semicolon s = Some g →
  Forall (λ c, c ≠ Chr.semicolon ∧ is_line_terminator c = false) g
  ∧ ∃ pre post, s = pre ++ Chr.colon :: g ++ Chr.semicolon :: post.
Proof.
  induction s as [|c s IH]; [done|]. cbn [match_colon_semicolon].
  destruct (N.eqb_spec c Chr.colon) as [->|Hc].
  - destruct (lazy_until_semicolon s) as [g'|] eqn:Hg.
    + intros [= <-]. destruct (lazy_until_semicolon_Some s g' Hg) as [HF [post ->]].
      split; [done|]. by exists [], post.
    + intros [HF (pre & post & ->)]%IH. split; [done|].
      by exists (Chr.colon :: pre), post.
  - intros [HF (pre & post & ->)]%IH. split; [done|].
    by exists (c :: pre), post.
Qed.

(** X21. The type of every blob [base64ToBlob] makes is read in the
    text before the first comma, between a [:] and the first [;] after
    it: it has no [;] and no line terminator, and the blob gets it as
    the [Blob] constructor normalizes it. *)
Theorem base64ToBlob_type s blob :
  base64ToBlob s = inr blob →
  ∃ pre mimeString post,
    before_first_comma s = pre ++ Chr.colon :: mimeString ++ Chr.semicolon :: post
    ∧ Forall (λ c, c ≠ Chr.semicolon ∧ is_line_terminator c = false) mimeString
    ∧ blob_type blob = normalize_type mimeString.
Proof.
  unfold base64ToBlob. rewrite split_head.
  destruct (Base64.atob _) as [e|byteString];
    cbn [mbind mret result_bind result_ret]; [done|].
  destruct (match_colon_semicolon _) as [mimeString|] eqn:Hm;
    cbn [non_null mbind mret result_bind result_ret]; [|done].
  intros [= <-].
  destruct (match_colon_semicolon_Some _ _ Hm) as [HF (pre & post & Hs)].
  by exists pre, mimeString, post.
Qed.

Lemma base64ToBlob_type_witness :
  let s := lit "data:image/svg+xml;charset=utf-8;base64,QUJD" in
  let blob := {| blob_bytes := lit "ABC"; blob_type := lit "image/svg+xml";
                 blob_name := None |} in
  base64ToBlob s = inr blob
  ∧ ∃ pre mimeString post,
      before_first_comma s
      = pre ++ Chr.colon :: mimeString ++ Chr.semicolon :: post
      ∧ Forall (λ c, c ≠ Chr.semicolon ∧ is_line_terminator c = false) mimeString
      ∧ blob_type blob = normalize_type mimeString.
Proof.
  intros s blob. split; [reflexivity|].
  apply (base64ToBlob_type s blob). reflexivity.
Defined.

Lemma atob_whitespace s s' :
  Base64.remove_whitespace s = Base64.remove_whitespace s' →
  Base64.atob s = Base64.atob s'.
Proof. unfold Base64.atob. by intros ->. Qed.

(** X22. ASCII whitespace in the payload does not count: two data URIs
    with the same MIME type whose payloads differ only by tabs, line
    feeds, form feeds, carriage returns and spaces give the same blob,
    or the same error. *)
Theorem base64ToBlob_ignores_whitespace mime payload payload' :
  forallb mime_char mime = true →
  Forall (λ c, c ≠ Chr.comma) payload →
  Forall (λ c, c ≠ Chr.comma) payload' →
  Base64.remove_whitespace payload = Base64.remove_whitespace payload' →
  base64ToBlob (data_uri mime payload) = base64ToBlob (data_uri mime payload').
Proof.
  intros Hm Hp Hp' Hws. unfold base64ToBlob.
  rewrite !data_uri_split by done. cbn [lookup list_lookup default id].
  by rewrite (atob_whitespace payload payload' Hws).
Qed.

Lemma base64ToBlob_ignores_whitespace_witness :
  let payload := lit "/9j/4AAQ" ++ [Chr.cr; Chr.lf] ++ lit "SkZJ Rg==" in
  Forall (λ c, c ≠ Chr.comma) payload
  ∧ Base64.remove_whitespace payload = Base64.remove_whitespace jpeg_header_base64
  ∧ base64ToBlob (data_uri (lit "image/jpeg") payload)
    = base64ToBlob (data_uri (lit "image/jpeg") jpeg_header_base64).
Proof.
  intros payload.
  assert (H1 : Forall (λ c, c ≠ Chr.comma) payload)
    by (apply Forall_forall; intros c Hc%list_elem_of_In;
        vm_compute in Hc; intros ->; intuition discriminate).
  assert (H2 : Forall (λ c, c ≠ Chr.comma) jpeg_header_base64)
    by (apply Forall_forall; intros c Hc%list_elem_of_In;
        vm_compute in Hc; intros ->; intuition discriminate).
  split; [exact H1|]. split; [reflexivity|].
  apply (base64ToBlob_ignores_whitespace (lit "image/jpeg") payload
           jpeg_header_base64); [reflexivity | exact H1 | exact H2 | reflexivity].
Defined.

Section UrlStrings.

Context {JSValue : Type}.
Variable JSON_parse : jsstring → option JSValue.

(** X23. A string that does not start with [data:] is not decoded: it is
    posted as it is, as the text field [imageUrl], in the one request of
    the upload, and the promise resolves. The test is on the exact
    prefix, in lower case. *)
Theorem other_strings_are_posted_as_imageUrl env s :
  startsWith s (lit "data:") = false →
  let formData := [(lit "imageUrl", FDString s)] in
  buildFormData (ImageString s) = inr formData
  ∧ requests (handleImageUpload JSON_parse env (ImageString s)).1
    = [upload_request env formData]
  ∧ (handleImageUpload JSON_parse env (ImageString s)).2 = inr tt.
Proof.
  intros Hs formData.
  assert (Hfd : buildFormData (ImageString s) = inr formData)
    by (cbn [buildFormData]; by rewrite Hs).
  split; [done|]. rewrite (handleImageUpload_built _ _ _ formData Hfd).
  apply postFormData_one_request.
Qed.

End UrlStrings.

Lemma other_strings_are_posted_as_imageUrl_witness :
  let env := sample_env (inr {| status := 200; body := inr ok_true_text |}) in
  let s := lit "DATA:image/jpeg;base64,QUJD" in
  startsWith s (lit "data:") = false
  ∧ buildFormData (ImageString s) = inr [(lit "imageUrl", FDString s)]
  ∧ requests (handleImageUpload parse_sample env (ImageString s)).1
    = [upload_request env [(lit "imageUrl", FDString s)]]
  ∧ (handleImageUpload parse_sample env (ImageString s)).2 = inr tt.
Proof.
  intros env s. split; [reflexivity|].
  apply (other_strings_are_posted_as_imageUrl parse_sample env s). reflexivity.
Defined.
